(** * Permits: lifecycle, signature variants and the permit store

    A shallow embedding of [core/permit] (the [Permit] class, the signature
    variant catalogue of [generate.ts] and the zustand-backed permit store)
    together with the properties stated about them.

    Conventions of the embedding:
    - a JavaScript [string] is a [String.string]; a [number] that the code
      only uses as an integer (timestamps, ids, chain ids) is a [Z], the
      result of [parseInt] is a [Z] or [NaN]; a [bigint] is a [Z];
    - [T | undefined] is [option T];
    - a plain object used as a record with a fixed set of keys is a [Record];
      an object built key by key is an association list in insertion order;
      an object used as a dictionary is a [gmap];
    - a call that may throw returns a [completion]. *)

From Stdlib Require Import ZArith String Ascii List Bool Lia.
From Stdlib Require Import DecimalString HexadecimalString DecimalPos.
From stdpp Require Import gmap strings.
Import ListNotations.

Local Open Scope string_scope.
Local Open Scope Z_scope.

(** Let [simpl] and [cbn] compute [++] on strings that start with known
    characters. *)
#[local] Arguments String.append !s1 s2 /.

(** ** JavaScript completions *)

(** The outcome of running a piece of code: a value, or a thrown error
    carrying its message. *)
Inductive completion (A : Type) : Type :=
  | Normal (a : A)
  | Throw (e : string).
Arguments Normal {A} a.
Arguments Throw {A} e.

Definition cbind {A B} (c : completion A) (k : A -> completion B) : completion B :=
  match c with
  | Normal a => k a
  | Throw e => Throw e
  end.

#[global] Instance completion_ret : MRet completion := @Normal.
#[global] Instance completion_bind : MBind completion :=
  fun A B k c => cbind c k.

Definition throws {A} (c : completion A) : Prop :=
  match c with Normal _ => False | Throw _ => True end.

(** ** Characters and strings *)

(** The code of a character, and the character of a code. *)
Definition code (c : ascii) : Z := Z.of_N (N_of_ascii c).
Definition char (n : Z) : ascii := ascii_of_N (Z.to_N n).

Definition dquote : ascii := char 34.
Definition backslash : ascii := char 92.
Definition newline : ascii := char 10.

(** [s.length] *)
Definition strlen (s : string) : nat := String.length s.

(** [s.slice(-n)]: the last [n] characters of [s], all of [s] when it is
    shorter. *)
Definition slice_last (n : nat) (s : string) : string :=
  substring (strlen s - n) n s.

(** [s.startsWith(p)] *)
Definition startsWith (p s : string) : bool := String.prefix p s.

Fixpoint string_forall (f : ascii -> bool) (s : string) : bool :=
  match s with
  | EmptyString => true
  | String c r => f c && string_forall f r
  end.

Fixpoint string_exists (f : ascii -> bool) (s : string) : bool :=
  match s with
  | EmptyString => false
  | String c r => f c || string_exists f r
  end.

Definition in_range (lo hi : Z) (c : ascii) : bool :=
  (lo <=? code c) && (code c <=? hi).

Definition is_digit : ascii -> bool := in_range 48 57.
Definition is_lower_af : ascii -> bool := in_range 97 102.
Definition is_upper_AF : ascii -> bool := in_range 65 70.
Definition is_hex_digit (c : ascii) : bool :=
  is_digit c || is_lower_af c || is_upper_AF c.
Definition is_alnum (c : ascii) : bool :=
  is_digit c || in_range 97 122 c || in_range 65 90 c.

(** ** The permit data model ([types/permit.ts], [core/permit/permit.ts]) *)

(** [type: "self" | "sharing" | "recipient"] *)
Inductive PermitType : Type := Self | Sharing | Recipient.

Definition PermitType_eqb (a b : PermitType) : bool :=
  match a, b with
  | Self, Self | Sharing, Sharing | Recipient, Recipient => true
  | _, _ => false
  end.

Definition PermitType_string (t : PermitType) : string :=
  match t with
  | Self => "self"
  | Sharing => "sharing"
  | Recipient => "recipient"
  end.

(** Modelled from the spec: the class [SealingKey] of [core/sdk/sealing] is
    not part of the sources at hand.  The spec describes it as an opaque
    keypair [{publicKey, privateKey}] with an [unseal] operation; the
    constructor [new SealingKey(privateKey, publicKey)] stores its two
    arguments. *)
Record SealingKey : Type := new_SealingKey {
  privateKey : string;
  publicKey : string
}.

(** [ZeroAddress] of ethers. *)
Definition ZeroAddress : string := "0x0000000000000000000000000000000000000000".

(** The fields of the class [Permit]: [PermitInterface] and
    [PermitMetadata]. *)
Record Permit : Type := new_Permit {
  name : string;
  type : PermitType;
  issuer : string;
  expiration : Z;
  recipient : string;
  validatorId : Z;
  validatorContract : string;
  sealingPair : SealingKey;
  issuerSignature : string;
  recipientSignature : string;
  _signedChainId : option string
}.

(** [SerializedPermit]: the permit without classes, the sealing pair as a
    plain object. *)
Module Serialized.
Record SealingPair : Type := mkSealingPair {
  publicKey : string;
  privateKey : string
}.
Record t : Type := mk {
  name : string;
  type : PermitType;
  issuer : string;
  expiration : Z;
  recipient : string;
  validatorId : Z;
  validatorContract : string;
  issuerSignature : string;
  recipientSignature : string;
  _signedChainId : option string;
  sealingPair : SealingPair
}.
End Serialized.
Abbreviation SerializedPermit := Serialized.t.

(** [Permit.updateName] *)
Definition updateName (n : string) (p : Permit) : Permit :=
  new_Permit n (type p) (issuer p) (expiration p) (recipient p)
    (validatorId p) (validatorContract p) (sealingPair p)
    (issuerSignature p) (recipientSignature p) (_signedChainId p).

(** [Permit.serialize]: [getInterface()] without the sealing pair, plus the
    signed chain id and the two keys of the pair. *)
Definition serialize (p : Permit) : SerializedPermit :=
  Serialized.mk (name p) (type p) (issuer p) (expiration p) (recipient p)
    (validatorId p) (validatorContract p)
    (issuerSignature p) (recipientSignature p)
    (_signedChainId p)
    (Serialized.mkSealingPair (publicKey (sealingPair p))
                              (privateKey (sealingPair p))).

(** [Permit.deserialize]: a new [Permit] around a new [SealingKey]. *)
Definition deserialize (s : SerializedPermit) : Permit :=
  new_Permit (Serialized.name s) (Serialized.type s) (Serialized.issuer s)
    (Serialized.expiration s) (Serialized.recipient s)
    (Serialized.validatorId s) (Serialized.validatorContract s)
    (new_SealingKey (Serialized.privateKey (Serialized.sealingPair s))
                    (Serialized.publicKey (Serialized.sealingPair s)))
    (Serialized.issuerSignature s) (Serialized.recipientSignature s)
    (Serialized._signedChainId s).

(** *** Validity *)

(** [Permit.isSigned] *)
Definition isSigned (p : Permit) : bool :=
  if PermitType_eqb (type p) Self || PermitType_eqb (type p) Sharing
  then negb (String.eqb (issuerSignature p) "0x")
  else if PermitType_eqb (type p) Recipient
  then negb (String.eqb (recipientSignature p) "0x")
  else false.

(** [Math.floor(Date.now() / 1000)], [now_ms] being the value of
    [Date.now()], a whole number of milliseconds. *)
Definition unix_seconds (now_ms : Z) : Z := now_ms / 1000.

(** [Permit.isExpired] *)
Definition isExpired (now_ms : Z) (p : Permit) : bool :=
  expiration p <? unix_seconds now_ms.

Record Validity : Type := mkValidity {
  valid : bool;
  error : option string
}.

(** [Permit.isValid] *)
Definition isValid (now_ms : Z) (p : Permit) : Validity :=
  if isExpired now_ms p then mkValidity false (Some "expired")
  else if negb (isSigned p) then mkValidity false (Some "not-signed")
  else mkValidity true None.

(** The signature of the party that is to sign a permit of this kind. *)
Definition activeSignature (p : Permit) : string :=
  match type p with
  | Self | Sharing => issuerSignature p
  | Recipient => recipientSignature p
  end.

(** ** Objects built key by key, and [JSON.stringify] *)

(** The values held by the flat objects of this module: strings and
    numbers. *)
Inductive JSPrim : Type :=
  | JStr (s : string)
  | JNum (n : Z).

(** An object as the list of its own properties in insertion order (none of
    the keys used here is an array index, so insertion order is enumeration
    order). *)
Definition JSObject : Type := list (string * JSPrim).

(** [o[k]] *)
Fixpoint obj_get (k : string) (o : JSObject) : option JSPrim :=
  match o with
  | [] => None
  | (k', v) :: r => if String.eqb k k' then Some v else obj_get k r
  end.

(** [k in o] *)
Definition obj_has (k : string) (o : JSObject) : bool :=
  match obj_get k o with Some _ => true | None => false end.

(** [o[k] = v]: an existing key keeps its place. *)
Fixpoint obj_set (k : string) (v : JSPrim) (o : JSObject) : JSObject :=
  match o with
  | [] => [(k, v)]
  | (k', v') :: r =>
      if String.eqb k k' then (k, v) :: r else (k', v') :: obj_set k v r
  end.

(** [Object.keys(o)] *)
Definition obj_keys (o : JSObject) : list string := map fst o.

(** [Number.prototype.toString] on an integer: its decimal digits, with a
    minus sign when negative (the integers met here stay far below 1e21,
    where JavaScript switches to exponent notation). *)
Definition number_toString (n : Z) : string :=
  DecimalString.NilZero.string_of_int (Z.to_int n).

Definition hex_digit (n : Z) : ascii :=
  if n <? 10 then char (48 + n) else char (87 + n).

(** [QuoteJSONString] on one character. *)
Definition escape_char (c : ascii) : string :=
  let n := code c in
  if n =? 34 then String backslash (String dquote EmptyString)
  else if n =? 92 then String backslash (String backslash EmptyString)
  else if n =? 8 then "\b"
  else if n =? 9 then "\t"
  else if n =? 10 then "\n"
  else if n =? 12 then "\f"
  else if n =? 13 then "\r"
  else if n <? 32 then
    "\u00" ++ String (hex_digit (n / 16)) (String (hex_digit (n mod 16)) EmptyString)
  else String c EmptyString.

Fixpoint escape (s : string) : string :=
  match s with
  | EmptyString => EmptyString
  | String c r => escape_char c ++ escape r
  end.

Definition JSON_quote (s : string) : string :=
  String dquote (escape s ++ String dquote EmptyString).

Definition JSON_prim (v : JSPrim) : string :=
  match v with
  | JStr s => JSON_quote s
  | JNum n => number_toString n
  end.

Fixpoint join (sep : string) (l : list string) : string :=
  match l with
  | [] => EmptyString
  | [x] => x
  | x :: r => x ++ sep ++ join sep r
  end.

(** [JSON.stringify(o)] *)
Definition JSON_stringify (o : JSObject) : string :=
  "{" ++ join "," (map (fun kv => JSON_quote (fst kv) ++ ":" ++ JSON_prim (snd kv)) o)
      ++ "}".

(** [JSON.stringify(o, undefined, 2)] *)
Definition JSON_stringify_indent2 (o : JSObject) : string :=
  match o with
  | [] => "{}"
  | _ =>
      "{" ++ String newline
        (join ("," ++ String newline EmptyString)
           (map (fun kv => "  " ++ JSON_quote (fst kv) ++ ": " ++ JSON_prim (snd kv)) o)
         ++ String newline "}")
  end.

(** ** [parseInt] *)

(** A JavaScript number that is an integer, or [NaN]. *)
Inductive JSNumber : Type :=
  | Num (z : Z)
  | NaN.

(** [StrWhiteSpaceChar], on the ASCII range. *)
Definition is_whitespace (c : ascii) : bool :=
  let n := code c in
  (n =? 9) || (n =? 10) || (n =? 11) || (n =? 12) || (n =? 13) || (n =? 32).

Fixpoint trim_start (s : string) : string :=
  match s with
  | String c r => if is_whitespace c then trim_start r else s
  | EmptyString => s
  end.

(** The value of a character as a digit, in any radix up to 36. *)
Definition digit_value (c : ascii) : option Z :=
  let n := code c in
  if is_digit c then Some (n - 48)
  else if in_range 97 122 c then Some (n - 87)
  else if in_range 65 90 c then Some (n - 55)
  else None.

(** The value of the longest prefix of [s] made of radix-[R] digits, after
    the digits already read ([acc]); [None] when there is no digit at all. *)
Fixpoint parse_digits (R : Z) (acc : option Z) (s : string) : option Z :=
  match s with
  | EmptyString => acc
  | String c r =>
      match digit_value c with
      | Some d =>
          if d <? R
          then parse_digits R (Some (match acc with Some a => a | None => 0 end * R + d)) r
          else acc
      | None => acc
      end
  end.

(** The steps of [parseInt] after the sign: a leading [0x] or [0X] selects
    radix 16 and is dropped, radix 10 otherwise; then the digits. *)
Definition parse_unsigned (input : string) : option Z :=
  let '(R, input) :=
    match input with
    | String c0 (String c1 r) =>
        if Ascii.eqb c0 "0" && (Ascii.eqb c1 "x" || Ascii.eqb c1 "X")
        then (16, r) else (10, input)
    | _ => (10, input)
    end in
  parse_digits R None input.

(** [parseInt(s)], no radix given: leading white space is skipped, a sign
    is read, and the result is [NaN] when no digit follows. *)
Definition parseInt (s : string) : JSNumber :=
  let input := trim_start s in
  let '(sign, input) :=
    match input with
    | String c r =>
        if Ascii.eqb c "-" then (-1, r)
        else if Ascii.eqb c "+" then (1, r)
        else (1, input)
    | EmptyString => (1, input)
    end in
  match parse_unsigned input with
  | None => NaN
  | Some v => Num (sign * v)
  end.

(** The characters of a number's text. *)
Definition is_number_char (c : ascii) : bool := is_digit c || Ascii.eqb c "-".

(** Reading one character of a quoted JSON string back: the character and
    the rest of the text, [None] at the closing quote or at a malformed
    escape.  It serves to show that [escape] loses nothing. *)
Definition hex_value (c : ascii) : Z :=
  match digit_value c with Some d => d | None => 0 end.

Definition unescape_char (s : string) : option (ascii * string) :=
  match s with
  | EmptyString => None
  | String c r =>
      if Ascii.eqb c dquote then None
      else if Ascii.eqb c backslash then
        match r with
        | String e r' =>
            if Ascii.eqb e dquote then Some (dquote, r')
            else if Ascii.eqb e backslash then Some (backslash, r')
            else if Ascii.eqb e "b" then Some (char 8, r')
            else if Ascii.eqb e "t" then Some (char 9, r')
            else if Ascii.eqb e "n" then Some (char 10, r')
            else if Ascii.eqb e "f" then Some (char 12, r')
            else if Ascii.eqb e "r" then Some (char 13, r')
            else if Ascii.eqb e "u" then
              match r' with
              | String _ (String _ (String h (String l r''))) =>
                  Some (char (16 * hex_value h + hex_value l), r'')
              | _ => None
              end
            else None
        | EmptyString => None
        end
      else Some (c, r)
  end.

(** ** The signature variant catalogue ([generate.ts]) *)

Module Field.
Record t : Type := mk { name : string; type : string }.
End Field.

Definition PermitSignatureAllFields : list Field.t :=
  [ Field.mk "issuer" "address";
    Field.mk "expiration" "uint64";
    Field.mk "recipient" "address";
    Field.mk "validatorId" "uint256";
    Field.mk "validatorContract" "address";
    Field.mk "sealingKey" "bytes32";
    Field.mk "issuerSignature" "bytes" ].

Inductive PermitSignaturePrimaryType : Type :=
  | PermissionedIssuerSelf
  | PermissionedIssuerShared
  | PermissionedRecipient.

Definition SignatureTypes (pt : PermitSignaturePrimaryType) : list string :=
  match pt with
  | PermissionedIssuerSelf =>
      ["issuer"; "expiration"; "recipient"; "validatorId";
       "validatorContract"; "sealingKey"]
  | PermissionedIssuerShared =>
      ["issuer"; "expiration"; "recipient"; "validatorId"; "validatorContract"]
  | PermissionedRecipient => ["sealingKey"; "issuerSignature"]
  end.

(** [fields.includes(x)] *)
Definition includes (fields : list string) (x : string) : bool :=
  existsb (String.eqb x) fields.

(** The object [{types, primaryType, message}]; [types] has the single key
    [primaryType]. *)
Record TypesAndMessage : Type := mkTypesAndMessage {
  types : PermitSignaturePrimaryType * list Field.t;
  primaryType : PermitSignaturePrimaryType;
  message : JSObject
}.

Definition getSignatureTypesAndMessage (primaryType : PermitSignaturePrimaryType)
    (fields : list string) (values : JSObject) : TypesAndMessage :=
  let types :=
    (primaryType,
     List.filter (fun fieldType => includes fields (Field.name fieldType))
       PermitSignatureAllFields) in
  let message :=
    fold_left
      (fun message field =>
         match obj_get field values with
         | Some v => obj_set field v message
         | None => message
         end)
      fields [] in
  mkTypesAndMessage types primaryType message.

Module Domain.
Record t : Type := mk {
  name : string;
  version : string;
  chainId : JSNumber;
  verifyingContract : string
}.
End Domain.

Definition getSignatureDomain (chainId : string) : Domain.t :=
  Domain.mk "Fhenix Permission 1.0.0" "1.0.0" (parseInt chainId) ZeroAddress.

(** ** Values returned by contract calls ([unseal]) *)

(** [FheTypes] of [types/base.ts]. *)
Inductive FheTypes : Type :=
  | Bool | Uint2 | Uint4 | Uint6 | Uint8 | Uint10 | Uint12 | Uint14 | Uint16
  | Uint32 | Uint64 | Uint128 | Uint160 | Uint256 | Uint512 | Uint1024
  | Uint2048 | Int2 | Int4 | Int6 | Int8 | Int10 | Int12 | Int14 | Int16
  | Int32 | Int64 | Int128 | Int160 | Int256.

Definition FheTypes_list : list FheTypes :=
  [ Bool; Uint2; Uint4; Uint6; Uint8; Uint10; Uint12; Uint14; Uint16;
    Uint32; Uint64; Uint128; Uint160; Uint256; Uint512; Uint1024;
    Uint2048; Int2; Int4; Int6; Int8; Int10; Int12; Int14; Int16;
    Int32; Int64; Int128; Int160; Int256 ].

(** The numeric value of a member of the enum. *)
Definition FheTypes_value (t : FheTypes) : Z :=
  match t with
  | Bool => 0 | Uint2 => 1 | Uint4 => 2 | Uint6 => 3 | Uint8 => 4
  | Uint10 => 5 | Uint12 => 6 | Uint14 => 7 | Uint16 => 8 | Uint32 => 9
  | Uint64 => 10 | Uint128 => 11 | Uint160 => 12 | Uint256 => 13
  | Uint512 => 14 | Uint1024 => 15 | Uint2048 => 16 | Int2 => 17
  | Int4 => 18 | Int6 => 19 | Int8 => 20 | Int10 => 21 | Int12 => 22
  | Int14 => 23 | Int16 => 24 | Int32 => 25 | Int64 => 26 | Int128 => 27
  | Int160 => 28 | Int256 => 29
  end.

Definition FheTypes_of_value (n : Z) : option FheTypes :=
  List.find (fun t => FheTypes_value t =? n) FheTypes_list.

Definition FheTypes_eqb (a b : FheTypes) : bool :=
  FheTypes_value a =? FheTypes_value b.

(** [FheUintUTypes] *)
Definition FheUintUTypes : list FheTypes :=
  [Uint8; Uint16; Uint32; Uint64; Uint128; Uint256].

(** [FheAllUTypes] *)
Definition FheAllUTypes : list FheTypes :=
  [Bool; Uint8; Uint16; Uint32; Uint64; Uint128; Uint256; Uint160].

(** A JavaScript value: primitives, arrays and plain objects (the own
    enumerable properties in enumeration order). *)
#[warnings="-register-all"]
Inductive JSValue : Type :=
  | VUndefined
  | VNull
  | VBoolean (b : bool)
  | VNumber (n : Z)
  | VBigInt (n : Z)
  | VString (s : string)
  | VArray (items : list JSValue)
  | VObject (props : list (string * JSValue)).

Fixpoint prop_get (k : string) (props : list (string * JSValue)) : option JSValue :=
  match props with
  | [] => None
  | (k', v) :: r => if String.eqb k k' then Some v else prop_get k r
  end.

(** Modelled from the spec: [SealedItem] and its recognisers belong to
    [types/sealed.ts], which is not part of the sources at hand.  The spec
    says a sealed item is recognised by inspecting a discriminant field
    identifying it as a sealed boolean, address or unsigned integer produced
    by the remote service: here an object whose [data] is a string and whose
    [utype] is one of [FheAllUTypes]. *)
Record SealedItem : Type := mkSealedItem {
  data : string;
  utype : FheTypes
}.

(** Modelled from the spec: [getAsSealedItem] of [types/sealed.ts]. *)
Definition getAsSealedItem (item : JSValue) : option SealedItem :=
  match item with
  | VObject props =>
      match prop_get "data" props, prop_get "utype" props with
      | Some (VString d), Some (VNumber u) =>
          match FheTypes_of_value u with
          | Some t =>
              if existsb (FheTypes_eqb t) FheAllUTypes
              then Some (mkSealedItem d t) else None
          | None => None
          end
      | _, _ => None
      end
  | _ => None
  end.

(** Modelled from the spec: [isSealedBool], [isSealedAddress] and
    [isSealedUint] of [types/sealed.ts], on the discriminant. *)
Definition isSealedBool (i : SealedItem) : bool := FheTypes_eqb (utype i) Bool.
Definition isSealedAddress (i : SealedItem) : bool := FheTypes_eqb (utype i) Uint160.
Definition isSealedUint (i : SealedItem) : bool :=
  existsb (FheTypes_eqb (utype i)) FheUintUTypes.

(** [bn.toString(16)] on a bigint. *)
Definition bigint_toString16 (bn : Z) : string :=
  HexadecimalString.NilZero.string_of_int (Z.to_hex_int bn).

(** [Boolean(bn)] *)
Definition Boolean_of_bigint (bn : Z) : bool := negb (bn =? 0).

(** The two shapes ethers' [getAddress] accepts:
    [/^(0x)?[0-9a-fA-F]{40}$/] and [/^XE[0-9]{2}[0-9A-Za-z]{30,31}$/]. *)
Definition strip0x (s : string) : string :=
  if startsWith "0x" s then substring 2 (strlen s - 2) s else s.

Definition is_hex_address (s : string) : bool :=
  let h := strip0x s in
  (strlen h =? 40)%nat && string_forall is_hex_digit h.

Definition is_icap_address (s : string) : bool :=
  startsWith "XE" s
  && string_forall is_digit (substring 2 2 s)
  && ((strlen s =? 34)%nat || (strlen s =? 35)%nat)
  && string_forall is_alnum (substring 4 (strlen s - 4) s).

(** [/([A-F].*[a-f])|([a-f].*[A-F])/] on a string without line breaks. *)
Definition is_mixed_case (s : string) : bool :=
  string_exists is_upper_AF s && string_exists is_lower_af s.

(** Running a call on the elements of a list from left to right, up to the
    first that throws. *)
Definition each {A B} (f : A -> completion B) : list A -> completion (list B) :=
  fix go (l : list A) : completion (list B) :=
    match l with
    | [] => Normal []
    | x :: l' => v ← f x; vs ← go l'; Normal (v :: vs)
    end.

(** ** Methods of a permit *)

(** A method body: it reads and assigns the fields of [this] and may throw;
    the permit it leaves behind is returned in both cases. *)
Definition Method (A : Type) : Type := Permit -> completion A * Permit.

#[global] Instance Method_ret : MRet Method := fun A a this => (Normal a, this).
#[global] Instance Method_bind : MBind Method := fun A B k m this =>
  match m this with
  | (Normal a, this') => k a this'
  | (Throw e, this') => (Throw e, this')
  end.

(** Reading [this]. *)
Definition this : Method Permit := fun p => (Normal p, p).
(** [throw new Error(e)] *)
Definition throw {A} (e : string) : Method A := fun p => (Throw e, p).
(** The outcome of a call that does not touch [this]; for a promise, the
    value it resolves to or the error it rejects with. *)
Definition await {A} (c : completion A) : Method A := fun p => (c, p).
(** An assignment to a field of [this]. *)
Definition assign (f : Permit -> Permit) : Method unit := fun p => (Normal tt, f p).

Definition set_issuerSignature (v : string) (p : Permit) : Permit :=
  new_Permit (name p) (type p) (issuer p) (expiration p) (recipient p)
    (validatorId p) (validatorContract p) (sealingPair p)
    v (recipientSignature p) (_signedChainId p).

Definition set_recipientSignature (v : string) (p : Permit) : Permit :=
  new_Permit (name p) (type p) (issuer p) (expiration p) (recipient p)
    (validatorId p) (validatorContract p) (sealingPair p)
    (issuerSignature p) v (_signedChainId p).

Definition set_signedChainId (v : option string) (p : Permit) : Permit :=
  new_Permit (name p) (type p) (issuer p) (expiration p) (recipient p)
    (validatorId p) (validatorContract p) (sealingPair p)
    (issuerSignature p) (recipientSignature p) v.

(** [Permit.export]: the object [cleanedPermit] ... *)
Definition cleanedPermit (p : Permit) : JSObject :=
  let o := [ ("name", JStr (name p));
             ("type", JStr (PermitType_string (type p)));
             ("issuer", JStr (issuer p));
             ("expiration", JNum (expiration p)) ] in
  let o := if negb (String.eqb (recipient p) ZeroAddress)
           then obj_set "recipient" (JStr (recipient p)) o else o in
  let o := if negb (validatorId p =? 0)
           then obj_set "validatorId" (JNum (validatorId p)) o else o in
  let o := if negb (String.eqb (validatorContract p) ZeroAddress)
           then obj_set "validatorContract" (JStr (validatorContract p)) o else o in
  let o := if PermitType_eqb (type p) Sharing
              && negb (String.eqb (issuerSignature p) "0x")
           then obj_set "issuerSignature" (JStr (issuerSignature p)) o else o in
  o.

(** ... and its JSON text. *)
Definition export (p : Permit) : string :=
  JSON_stringify_indent2 (cleanedPermit p).

(** The object of which [Permit.getHash] takes the digest. *)
Definition hashedData (p : Permit) : JSObject :=
  [ ("type", JStr (PermitType_string (type p)));
    ("issuer", JStr (issuer p));
    ("expiration", JNum (expiration p));
    ("recipient", JStr (recipient p));
    ("validatorId", JNum (validatorId p));
    ("validatorContract", JStr (validatorContract p)) ].

(** The tuple the hash of a permit is said to depend on. *)
Definition core (p : Permit) : PermitType * string * Z * string * Z * string :=
  (type p, issuer p, expiration p, recipient p, validatorId p,
   validatorContract p).

(** The object [Permit.getPermission] returns: the interface without
    [name], [type] and [sealingPair], then [sealingKey]. *)
Definition permission (p : Permit) : JSObject :=
  [ ("issuer", JStr (issuer p));
    ("expiration", JNum (expiration p));
    ("recipient", JStr (recipient p));
    ("validatorId", JNum (validatorId p));
    ("validatorContract", JStr (validatorContract p));
    ("issuerSignature", JStr (issuerSignature p));
    ("recipientSignature", JStr (recipientSignature p));
    ("sealingKey", JStr ("0x" ++ publicKey (sealingPair p))) ].

(** [AbstractSigner] of [types/base.ts]; a promise is the completion it
    settles to. *)
Record AbstractSigner : Type := mkSigner {
  signer_getAddress : completion string;
  signTypedData :
    Domain.t -> PermitSignaturePrimaryType * list Field.t -> JSObject ->
    completion string
}.

(** [{domain, types, primaryType, message}] *)
Record SignatureParams : Type := mkSignatureParams {
  domain : Domain.t;
  typed : TypesAndMessage
}.

Section PermitModule.

Set Default Proof Using "Type".

(** ethers' [keccak256] and [id], on the hexadecimal and plain strings
    they take and return. *)
Variable keccak256 : string -> string.
Variable id : string -> string.

(** ethers' [getChecksumAddress], and what [getAddress] makes of an ICAP
    address. *)
Variable getChecksumAddress : string -> string.
Variable getIcapAddress : string -> completion string.

(** [FullyFormedPermitValidator.safeParse] of [permit.z]: [None] on
    success, the error otherwise. *)
Variable FullyFormedPermitValidator : Permit -> option string.

(** Modelled from the spec: [SealingKey.unseal] of [core/sdk/sealing], and
    [chainIsHardhat] with [hardhatMockUnseal] of [core/utils], are not part
    of the sources at hand.  The spec has [unseal(ciphertext) -> integer],
    deterministic, and a mock decryption substituted when the signed chain
    id names a local development network. *)
Variable SealingKey_unseal : SealingKey -> string -> Z.
Variable chainIsHardhat : option string -> bool.
Variable hardhatMockUnseal : string -> Z.

(** [Permit.getPermission]; the error message is cut after the
    validator's report. *)
Definition getPermission (skipValidation : bool) (p : Permit) : completion JSObject :=
  let permitData := p in
  _ ← (if negb skipValidation then
         match FullyFormedPermitValidator permitData with
         | Some err =>
             Throw ("Permit :: getPermission :: permit validation failed - " ++ err)
         | None => Normal tt
         end
       else Normal tt);
  Normal (permission permitData).

(** [Permit.getHash] *)
Definition getHash (p : Permit) : string :=
  keccak256 (id (JSON_stringify (hashedData p))).

(** [Permit.getSignatureParams] *)
Definition getSignatureParams (chainId : string)
    (primaryType : PermitSignaturePrimaryType) (p : Permit)
  : completion SignatureParams :=
  values ← getPermission true p;
  Normal (mkSignatureParams (getSignatureDomain chainId)
            (getSignatureTypesAndMessage primaryType
               (SignatureTypes primaryType) values)).

(** The primary type [Permit.sign] picks for a permit. *)
Definition sign_primaryType (p : Permit) : PermitSignaturePrimaryType :=
  let primaryType := PermissionedIssuerSelf in
  let primaryType :=
    if PermitType_eqb (type p) Self then PermissionedIssuerSelf else primaryType in
  let primaryType :=
    if PermitType_eqb (type p) Sharing then PermissionedIssuerShared else primaryType in
  let primaryType :=
    if PermitType_eqb (type p) Recipient then PermissionedRecipient else primaryType in
  primaryType.

(** [Permit.sign] *)
Definition sign (chainId : option string) (signer : option AbstractSigner)
  : Method unit :=
  match chainId with
  | None =>
      throw "Permit :: sign - chainId undefined, cannot sign a permit with an unknown chainId"
  | Some chainId =>
  match signer with
  | None =>
      throw "Permit :: sign - signer undefined, you must pass in a `signer` for the connected user to create a permit signature"
  | Some signer =>
      p ← this;
      let primaryType := sign_primaryType p in
      params ← await (getSignatureParams chainId primaryType p);
      signature ← await (signTypedData signer (domain params)
                           (types (typed params)) (message (typed params)));
      p ← this;
      (if PermitType_eqb (type p) Self || PermitType_eqb (type p) Sharing
       then assign (set_issuerSignature signature) else mret tt);;
      p ← this;
      (if PermitType_eqb (type p) Recipient
       then assign (set_recipientSignature signature) else mret tt);;
      assign (set_signedChainId (Some chainId))
  end
  end.

(** ethers' [getAddress]. *)
Definition getAddress (address : string) : completion string :=
  if is_hex_address address then
    let address := if startsWith "0x" address then address else "0x" ++ address in
    let result := getChecksumAddress address in
    if is_mixed_case address && negb (String.eqb result address)
    then Throw "bad address checksum"
    else Normal result
  else if is_icap_address address then getIcapAddress address
  else Throw "invalid address".

(** [Permit.unsealCiphertext] *)
Definition unsealCiphertext (p : Permit) (ciphertext : string) : Z :=
  if chainIsHardhat (_signedChainId p) then hardhatMockUnseal ciphertext
  else SealingKey_unseal (sealingPair p) ciphertext.

(** The first part of [Permit.unseal]: what is returned for a sealed item,
    [None] when the code falls through to the part for objects, arrays and
    primitives. *)
Definition unseal_sealed (p : Permit) (item : JSValue) : option (completion JSValue) :=
  match getAsSealedItem item with
  | Some sealedItem =>
      let bn :=
        if chainIsHardhat (_signedChainId p)
        then hardhatMockUnseal (data sealedItem)
        else SealingKey_unseal (sealingPair p) (data sealedItem) in
      if isSealedBool sealedItem then
        Some (Normal (VBoolean (Boolean_of_bigint bn)))
      else if isSealedAddress sealedItem then
        Some (a ← getAddress ("0x" ++ slice_last 40 (bigint_toString16 bn));
              Normal (VString a))
      else if isSealedUint sealedItem then
        Some (Normal (VBigInt bn))
      else None
  | None => None
  end.

(** [Permit.unseal]: [item.map] and the [for ... in] loop run from left to
    right and stop at the first call that throws. *)
Fixpoint unseal (p : Permit) (item : JSValue) {struct item} : completion JSValue :=
  match unseal_sealed p item with
  | Some r => r
  | None =>
      match item with
      | VArray items =>
          r ← each (fun nestedItem => unseal p nestedItem) items;
          Normal (VArray r)
      | VObject props =>
          result ← each (fun kv => v ← unseal p (snd kv); Normal (fst kv, v)) props;
          Normal (VObject result)
      | _ => Normal item
      end
  end.

(** ** The permit store ([store.ts]) *)

(** [PermitsStore]: the permits of each account by hash, a slot holding
    [undefined] once its permit is removed, and the hash of the active
    permit of each account. *)
Record PermitsStore : Type := mkPermitsStore {
  permits : gmap string (gmap string (option SerializedPermit));
  activePermitHash : gmap string (option string)
}.

(** The state [_permitStore] is created with. *)
Definition initialStore : PermitsStore := mkPermitsStore ∅ ∅.

(** [getPermit] *)
Definition getPermit (st : PermitsStore) (account hash : option string)
  : option Permit :=
  match account, hash with
  | Some account, Some hash =>
      let savedPermit := mjoin (permits st !! account ≫= (.!! hash)) in
      match savedPermit with
      | None => None
      | Some savedPermit => Some (deserialize savedPermit)
      end
  | _, _ => None
  end.

(** [getActivePermitHash] *)
Definition getActivePermitHash (st : PermitsStore) (account : option string)
  : option string :=
  match account with
  | None => None
  | Some account => mjoin (activePermitHash st !! account)
  end.

(** [getActivePermit] *)
Definition getActivePermit (st : PermitsStore) (account : option string)
  : option Permit :=
  match account with
  | None => None
  | Some account =>
      let activePermitHash := mjoin (activePermitHash st !! account) in
      getPermit st (Some account) activePermitHash
  end.

(** [getPermits]: the entries of the account's slots that hold a permit,
    deserialised. *)
Definition getPermits (st : PermitsStore) (account : option string)
  : gmap string Permit :=
  match account with
  | None => ∅
  | Some account =>
      omap (fun permit : option SerializedPermit => deserialize <$> permit)
        (default ∅ (permits st !! account))
  end.

(** [state.permits[account][hash] = v] on the draft: a [TypeError] when
    [state.permits[account]] is [undefined]. *)
Definition assign_slot (account hash : string) (v : option SerializedPermit)
    (state : PermitsStore) : completion PermitsStore :=
  match permits state !! account with
  | None => Throw "TypeError: Cannot set properties of undefined"
  | Some slots =>
      Normal (mkPermitsStore (<[account := <[hash := v]> slots]> (permits state))
                (activePermitHash state))
  end.

(** [setPermit]: the recipe run by [produce]; [setState] installs the
    state it returns, and nothing when it throws. *)
Definition setPermit (account : string) (permit : Permit) (state : PermitsStore)
  : completion PermitsStore :=
  let state :=
    match permits state !! account with
    | None => mkPermitsStore (<[account := ∅]> (permits state)) (activePermitHash state)
    | Some _ => state
    end in
  assign_slot account (getHash permit) (Some (serialize permit)) state.

(** [removePermit] *)
Definition removePermit (account hash : string) (state : PermitsStore)
  : completion PermitsStore :=
  assign_slot account hash None state.

(** [setActivePermitHash] *)
Definition setActivePermitHash (account hash : string) (state : PermitsStore)
  : completion PermitsStore :=
  Normal (mkPermitsStore (permits state)
            (<[account := Some hash]> (activePermitHash state))).

(** [removeActivePermitHash] *)
Definition removeActivePermitHash (account : string) (state : PermitsStore)
  : completion PermitsStore :=
  Normal (mkPermitsStore (permits state)
            (<[account := None]> (activePermitHash state))).

(** ** Results and sample values used in the statements below *)

Definition expired : Validity := mkValidity false (Some "expired").
Definition not_signed : Validity := mkValidity false (Some "not-signed").
Definition valid_permit : Validity := mkValidity true None.

(** A field that is present only under a condition. *)
Definition optional_field (b : bool) (k : string) (v : JSPrim) : JSObject :=
  if b then [(k, v)] else [].

(** A signed permit that expires at the very second of the check. *)
Definition permit_on_the_second : Permit :=
  new_Permit "demo" Self "0x1111111111111111111111111111111111111111"
    1700000000 ZeroAddress 0 ZeroAddress
    (new_SealingKey "aa" "bb") "0xabcd" "0x" (Some "1").

(** A self permit that carries its issuer's signature. *)
Definition signed_self_permit : Permit :=
  new_Permit "mine" Self "0x1111111111111111111111111111111111111111"
    1700000000 ZeroAddress 0 ZeroAddress
    (new_SealingKey "aa" "bb") "0xabcd" "0x" (Some "1").

(** A signer whose holder declines every request. *)
Definition rejecting_signer : AbstractSigner :=
  mkSigner (Normal "0x2222222222222222222222222222222222222222")
    (fun _ _ _ => Throw "user rejected the request").

(** A signer that answers every request with the same signature. *)
Definition constant_signer (signature : string) : AbstractSigner :=
  mkSigner (Normal "0x2222222222222222222222222222222222222222")
    (fun _ _ _ => Normal signature).

(** An unsigned permit of each kind. *)
Definition unsigned_permit (t : PermitType) : Permit :=
  new_Permit "draft" t "0x1111111111111111111111111111111111111111"
    1700000000 ZeroAddress 0 ZeroAddress
    (new_SealingKey "aa" "bb") "0x" "0x" None.

(** Stand-ins for the functions this module takes from elsewhere, for the
    examples: a digest that keeps its argument, a validator that accepts
    every permit, a sealing key under which every ciphertext decrypts to
    zero, no local development network, no ICAP address. *)
Definition plain_digest (s : string) : string := s.
Definition accept_all (p : Permit) : option string := None.
Definition unseal_to_zero (k : SealingKey) (ciphertext : string) : Z := 0.
Definition never_hardhat (chainId : option string) : bool := false.
Definition no_icap (address : string) : completion string :=
  Throw "bad icap checksum".

(** A sharing permit for the same issuer as [signed_self_permit]. *)
Definition sharing_permit : Permit :=
  new_Permit "theirs" Sharing "0x1111111111111111111111111111111111111111"
    1700000000 "0x3333333333333333333333333333333333333333" 0 ZeroAddress
    (new_SealingKey "cc" "dd") "0x" "0x" None.

(** The digits [bn.toString(16)] is made of. *)
Definition is_lower_hex (c : ascii) : bool := is_digit c || is_lower_af c.

(** A sealing key for the examples: the ciphertext ["yes"] decrypts to 1,
    ["owner"] to a number of forty hexadecimal digits, anything else to 0. *)
Definition sample_unseal (k : SealingKey) (ciphertext : string) : Z :=
  if String.eqb ciphertext "yes" then 1
  else if String.eqb ciphertext "owner"
       then 0x52908400098527886e0f7030069857d2e4169ee7
       else 0.

(** A sealed item as the remote service returns it. *)
Definition sealed_item (d : string) (t : FheTypes) : JSValue :=
  VObject [("data", VString d); ("utype", VNumber (FheTypes_value t))].

(** What the claim about [unseal] asks of a result: [Unsealed p item r]
    holds when [r] has the shape of [item], with each sealed boolean replaced
    by a boolean, each sealed address by the address [getAddress] makes of
    the last 40 hexadecimal digits of the decrypted integer, each sealed
    unsigned integer by the decrypted integer, and everything else kept. *)
#[warnings="-register-all"]
Inductive Unsealed (p : Permit) : JSValue -> JSValue -> Prop :=
  | Unsealed_bool item i :
      getAsSealedItem item = Some i -> isSealedBool i = true ->
      Unsealed p item (VBoolean (Boolean_of_bigint (unsealCiphertext p (data i))))
  | Unsealed_address item i a :
      getAsSealedItem item = Some i ->
      isSealedBool i = false -> isSealedAddress i = true ->
      getAddress ("0x" ++ slice_last 40
                    (bigint_toString16 (unsealCiphertext p (data i))))
        = Normal a ->
      Unsealed p item (VString a)
  | Unsealed_uint item i :
      getAsSealedItem item = Some i ->
      isSealedBool i = false -> isSealedAddress i = false ->
      isSealedUint i = true ->
      Unsealed p item (VBigInt (unsealCiphertext p (data i)))
  | Unsealed_array items items' :
      Forall2 (Unsealed p) items items' ->
      Unsealed p (VArray items) (VArray items')
  | Unsealed_object props props' :
      getAsSealedItem (VObject props) = None ->
      Forall2 (fun kv kv' => fst kv = fst kv' /\ Unsealed p (snd kv) (snd kv'))
        props props' ->
      Unsealed p (VObject props) (VObject props')
  | Unsealed_primitive item :
      match item with VArray _ | VObject _ => False | _ => True end ->
      Unsealed p item item.

(** The slot of an account and a hash as the store holds it: [None] when
    the key is missing, [Some None] when it holds [undefined]. *)
Definition slot (st : PermitsStore) (account hash : string)
  : option (option SerializedPermit) :=
  permits st !! account ≫= (.!! hash).

(** Every permit the store holds sits under its own hash. *)
Definition well_keyed (st : PermitsStore) : Prop :=
  forall account hash saved,
    slot st account hash = Some (Some saved) ->
    getHash (deserialize saved) = hash.

(** A value that holds no sealed item, at any depth. *)
Fixpoint no_sealed (item : JSValue) : bool :=
  match getAsSealedItem item with
  | Some _ => false
  | None =>
      match item with
      | VArray items => forallb no_sealed items
      | VObject props => forallb (fun kv => no_sealed (snd kv)) props
      | _ => true
      end
  end.

(** A permit that differs from [signed_self_permit] in everything the
    signature of a self permit leaves out. *)
Definition renamed_self_permit : Permit :=
  new_Permit "other name" Self "0x1111111111111111111111111111111111111111"
    1700000000 ZeroAddress 0 ZeroAddress
    (new_SealingKey "another private key" "bb") "0xabcd" "0x7777" (Some "31337").

(* ================================================================= *)
(** * Properties *)

(** ** Validity *)

Lemma isSigned_activeSignature (p : Permit) :
isSigned p = negb (String.eqb (activeSignature p) "0x").
Proof. unfold isSigned, activeSignature. now destruct (type p). Qed.

(** C1 (as amended): a permit is reported expired exactly when its
    expiration lies strictly before the current unix time, whatever its
    signatures; a permit that is not expired is reported not-signed when
    the signature of its active party is still the sentinel, and valid
    otherwise. *)
Theorem isValid_spec (now_ms : Z) (p : Permit) :
  (expiration p < unix_seconds now_ms -> isValid now_ms p = expired) /\
  (unix_seconds now_ms <= expiration p -> activeSignature p = "0x" ->
   isValid now_ms p = not_signed) /\
  (unix_seconds now_ms <= expiration p -> activeSignature p <> "0x" ->
   isValid now_ms p = valid_permit).
Proof.
  unfold isValid, isExpired. rewrite isSigned_activeSignature.
  repeat split.
  - intros H. apply Z.ltb_lt in H. now rewrite H.
  - intros H Hs. apply Z.ltb_ge in H. rewrite H.
    apply String.eqb_eq in Hs. now rewrite Hs.
  - intros H Hs. apply Z.ltb_ge in H. rewrite H.
    apply String.eqb_neq in Hs. now rewrite Hs.
Qed.

(** C1, as stated, fails when the expiration equals the current unix
    time: the permit is still valid during that second. *)
Lemma isValid_on_the_second :
  expiration permit_on_the_second <= unix_seconds 1700000000999 /\
  isValid 1700000000999 permit_on_the_second = valid_permit /\
  isValid 1700000000999 permit_on_the_second <> expired.
Proof. repeat split; [vm_compute; discriminate | discriminate]. Qed.

(** ** Serialisation *)

Lemma deserialize_serialize (p : Permit) : deserialize (serialize p) = p.
Proof. now destruct p as [? ? ? ? ? ? ? [? ?] ? ? ?]. Qed.

(** C4: serialising a permit and reading it back gives a permit with the
    same hash, signatures, signed chain id and sealing keys. *)
Theorem roundtrip_preserves (p : Permit) :
  let q := deserialize (serialize p) in
  getHash q = getHash p /\
  issuerSignature q = issuerSignature p /\
  recipientSignature q = recipientSignature p /\
  _signedChainId q = _signedChainId p /\
  publicKey (sealingPair q) = publicKey (sealingPair p) /\
  privateKey (sealingPair q) = privateKey (sealingPair p).
Proof. cbv zeta. now rewrite deserialize_serialize. Qed.

(** ** The export payload *)

Lemma cleanedPermit_fields (p : Permit) :
  cleanedPermit p =
   ([ ("name", JStr (name p));
      ("type", JStr (PermitType_string (type p)));
      ("issuer", JStr (issuer p));
      ("expiration", JNum (expiration p)) ]
    ++ optional_field (negb (String.eqb (recipient p) ZeroAddress))
         "recipient" (JStr (recipient p))
    ++ optional_field (negb (validatorId p =? 0))
         "validatorId" (JNum (validatorId p))
    ++ optional_field (negb (String.eqb (validatorContract p) ZeroAddress))
         "validatorContract" (JStr (validatorContract p))
    ++ optional_field (PermitType_eqb (type p) Sharing
                       && negb (String.eqb (issuerSignature p) "0x"))
         "issuerSignature" (JStr (issuerSignature p)))%list.
Proof.
  unfold cleanedPermit.
  destruct (negb (String.eqb (recipient p) ZeroAddress));
    destruct (negb (validatorId p =? 0));
    destruct (negb (String.eqb (validatorContract p) ZeroAddress));
    destruct (PermitType_eqb (type p) Sharing
              && negb (String.eqb (issuerSignature p) "0x"));
    reflexivity.
Qed.

Lemma obj_has_keys (k : string) (o : JSObject) :
  obj_has k o = true -> In k (obj_keys o).
Proof.
  unfold obj_has. induction o as [ | [k' v] o IH]; cbn; [discriminate | ].
  destruct (String.eqb_spec k k') as [-> | _]; [now left | ].
  intros H. right. now apply IH.
Qed.

(** C6 (as amended): the export payload always holds [name], [type],
    [issuer] and [expiration]; it holds [recipient], [validatorId] and
    [validatorContract] exactly when they differ from the zero address,
    zero and the zero address; it holds [issuerSignature] exactly when the
    permit is a sharing permit and the signature is not the sentinel; and
    it holds nothing else. *)
Theorem export_fields (p : Permit) :
  let o := cleanedPermit p in
  export p = JSON_stringify_indent2 o /\
  obj_get "name" o = Some (JStr (name p)) /\
  obj_get "type" o = Some (JStr (PermitType_string (type p))) /\
  obj_get "issuer" o = Some (JStr (issuer p)) /\
  obj_get "expiration" o = Some (JNum (expiration p)) /\
  obj_get "recipient" o =
    (if String.eqb (recipient p) ZeroAddress then None
     else Some (JStr (recipient p))) /\
  obj_get "validatorId" o =
    (if validatorId p =? 0 then None else Some (JNum (validatorId p))) /\
  obj_get "validatorContract" o =
    (if String.eqb (validatorContract p) ZeroAddress then None
     else Some (JStr (validatorContract p))) /\
  obj_get "issuerSignature" o =
    (if PermitType_eqb (type p) Sharing
        && negb (String.eqb (issuerSignature p) "0x")
     then Some (JStr (issuerSignature p)) else None) /\
  (forall k, obj_has k o = true ->
     In k ["name"; "type"; "issuer"; "expiration"; "recipient";
           "validatorId"; "validatorContract"; "issuerSignature"]).
Proof.
  cbv zeta. split; [reflexivity | ].
  rewrite cleanedPermit_fields.
  destruct (String.eqb (recipient p) ZeroAddress);
    destruct (validatorId p =? 0);
    destruct (String.eqb (validatorContract p) ZeroAddress);
    destruct (PermitType_eqb (type p) Sharing
              && negb (String.eqb (issuerSignature p) "0x"));
    (repeat apply conj; try reflexivity);
    intros k Hk; apply obj_has_keys in Hk; clear - Hk; cbn in *; tauto.
Qed.

(** C6, as stated, fails on a signed self permit: its issuer signature is
    not the sentinel and yet is left out of the export. *)
Lemma export_omits_self_signature :
  issuerSignature signed_self_permit <> "0x" /\
  obj_has "issuerSignature" (cleanedPermit signed_self_permit) = false.
Proof. split; [discriminate | reflexivity]. Qed.

(** ** The signing payload *)

(** C2: the payload [sign] builds for a permit has, as its message, exactly
    the fields of the variant of the permit's kind, taken from the permit,
    and as its type declaration those same fields with their types, in the
    order of the master list. *)
Theorem signing_payload_fields (chainId : string) (p : Permit) :
  exists params,
    getSignatureParams chainId (sign_primaryType p) p = Normal params /\
    message (typed params) =
      match type p with
      | Self =>
          [ ("issuer", JStr (issuer p));
            ("expiration", JNum (expiration p));
            ("recipient", JStr (recipient p));
            ("validatorId", JNum (validatorId p));
            ("validatorContract", JStr (validatorContract p));
            ("sealingKey", JStr ("0x" ++ publicKey (sealingPair p))) ]
      | Sharing =>
          [ ("issuer", JStr (issuer p));
            ("expiration", JNum (expiration p));
            ("recipient", JStr (recipient p));
            ("validatorId", JNum (validatorId p));
            ("validatorContract", JStr (validatorContract p)) ]
      | Recipient =>
          [ ("sealingKey", JStr ("0x" ++ publicKey (sealingPair p)));
            ("issuerSignature", JStr (issuerSignature p)) ]
      end /\
    types (typed params) =
      match type p with
      | Self =>
          (PermissionedIssuerSelf,
           [ Field.mk "issuer" "address"; Field.mk "expiration" "uint64";
             Field.mk "recipient" "address"; Field.mk "validatorId" "uint256";
             Field.mk "validatorContract" "address";
             Field.mk "sealingKey" "bytes32" ])
      | Sharing =>
          (PermissionedIssuerShared,
           [ Field.mk "issuer" "address"; Field.mk "expiration" "uint64";
             Field.mk "recipient" "address"; Field.mk "validatorId" "uint256";
             Field.mk "validatorContract" "address" ])
      | Recipient =>
          (PermissionedRecipient,
           [ Field.mk "sealingKey" "bytes32";
             Field.mk "issuerSignature" "bytes" ])
      end /\
    sublist (snd (types (typed params))) PermitSignatureAllFields.
Proof.
  eexists. split; [reflexivity | ].
  destruct p as [? [] ? ? ? ? ? ? ? ? ?]; cbn; repeat split;
    unfold PermitSignatureAllFields;
    repeat first [ apply sublist_nil | apply sublist_skip | apply sublist_cons ].
Qed.

(** ** Signing *)

(** What a call of [sign] with both arguments does: one request to the
    signer, then the assignments. *)
Lemma sign_run (chainId : string) (signer : AbstractSigner) (p : Permit) :
  sign (Some chainId) (Some signer) p =
    let payload := getSignatureTypesAndMessage (sign_primaryType p)
                     (SignatureTypes (sign_primaryType p)) (permission p) in
    match signTypedData signer (getSignatureDomain chainId)
            (types payload) (message payload) with
    | Throw e => (Throw e, p)
    | Normal signature =>
        (Normal tt,
         set_signedChainId (Some chainId)
           (match type p with
            | Self | Sharing => set_issuerSignature signature p
            | Recipient => set_recipientSignature signature p
            end))
    end.
Proof.
  unfold sign, mbind, Method_bind, this, await, getSignatureParams,
    getPermission. cbn.
  destruct (signTypedData _ _ _ _); [ | reflexivity].
  now destruct p as [? [] ? ? ? ? ? ? ? ? ?].
Qed.

(** C5: [sign] fails without a chain id and without a signer, and a failing
    run of [sign], whatever made it fail, leaves the permit as it was, in
    particular its two signatures and its signed chain id. *)
Theorem sign_failure_leaves_permit
    (chainId : option string) (signer : option AbstractSigner) (p : Permit) :
  (chainId = None \/ signer = None -> throws (fst (sign chainId signer p))) /\
  (forall e p', sign chainId signer p = (Throw e, p') ->
     p' = p /\
     issuerSignature p' = issuerSignature p /\
     recipientSignature p' = recipientSignature p /\
     _signedChainId p' = _signedChainId p).
Proof.
  split.
  - intros [-> | ->]; [ | destruct chainId]; exact I.
  - assert (forall e p', sign chainId signer p = (Throw e, p') -> p' = p) as H.
    { intros e p'. destruct chainId as [c | ], signer as [s | ];
        try (cbn; unfold throw; congruence).
      rewrite sign_run. cbv zeta.
      destruct (signTypedData _ _ _ _); congruence. }
    intros e p' Hrun. now rewrite (H e p' Hrun).
Qed.

(** A signer that rejects makes [sign] fail with the signer's error. *)
Lemma sign_rejected (chainId : string) (signer : AbstractSigner) (p : Permit) e :
  (forall d t m, signTypedData signer d t m = Throw e) ->
  sign (Some chainId) (Some signer) p = (Throw e, p).
Proof. intros H. rewrite sign_run. cbv zeta. now rewrite H. Qed.


(** ** The signing domain *)






Ltac eval_char_code :=
  repeat match goal with
         | |- context [code ?c] =>
             let v := eval vm_compute in (code c) in
             change (code c) with v
         end.

Lemma parse_digits_acc (d : Decimal.uint) (a : positive) :
  parse_digits 10 (Some (Z.pos a)) (DecimalString.NilEmpty.string_of_uint d) =
  Some (Z.pos (Pos.of_uint_acc d a)).
Proof.
  revert a. induction d; intros a; cbn - [Z.mul Z.add Pos.mul Pos.add];
    [reflexivity | rewrite <- IHd; do 2 f_equal; eval_char_code; lia ..].
Qed.

Lemma parse_digits_zero (d : Decimal.uint) :
  parse_digits 10 (Some 0) (DecimalString.NilEmpty.string_of_uint d) =
  Some (Z.of_N (Pos.of_uint d)).
Proof.
  induction d; cbn; try reflexivity; try assumption;
    apply (parse_digits_acc d).
Qed.

Lemma parse_digits_uint (d : Decimal.uint) :
  d <> Decimal.Nil ->
  parse_digits 10 None (DecimalString.NilEmpty.string_of_uint d) =
  Some (Z.of_N (Pos.of_uint d)).
Proof.
  intros H. rewrite <- parse_digits_zero. now destruct d.
Qed.

Lemma parse_unsigned_uint (d : Decimal.uint) :
  d <> Decimal.Nil ->
  parse_unsigned (DecimalString.NilEmpty.string_of_uint d) = Some (Z.of_N (Pos.of_uint d)).
Proof.
  intros H. rewrite <- (parse_digits_uint d H). unfold parse_unsigned.
  destruct d as [ | d | d | d | d | d | d | d | d | d | d];
    try congruence; try (now destruct d); reflexivity.
Qed.

Lemma trim_start_uint (d : Decimal.uint) :
  trim_start (DecimalString.NilEmpty.string_of_uint d) = DecimalString.NilEmpty.string_of_uint d.
Proof. now destruct d. Qed.

Lemma parseInt_digit_first (c : ascii) (r : string) :
  is_digit c = true ->
  parseInt (String c r) =
  match parse_unsigned (String c r) with None => NaN | Some v => Num v end.
Proof.
  intros H. unfold parseInt.
  assert (is_whitespace c = false /\ Ascii.eqb c "-" = false
          /\ Ascii.eqb c "+" = false) as (Hw & Hm & Hp).
  { destruct c as [[] [] [] [] [] [] [] []]; try discriminate H;
      repeat split; reflexivity. }
  cbn [trim_start]. rewrite Hw, Hm, Hp.
  destruct (parse_unsigned _); [ | reflexivity].
  now rewrite Z.mul_1_l.
Qed.

Lemma parseInt_uint (d : Decimal.uint) :
  d <> Decimal.Nil ->
  parseInt (DecimalString.NilEmpty.string_of_uint d) =
  Num (Z.of_N (Pos.of_uint d)).
Proof.
  intros H. pose proof (parse_unsigned_uint d H) as Hu.
  destruct d; try congruence;
    cbn [DecimalString.NilEmpty.string_of_uint] in *;
    rewrite parseInt_digit_first by reflexivity; now rewrite Hu.
Qed.

Lemma string_of_uint_nonnil (d : Decimal.uint) :
  d <> Decimal.Nil ->
  DecimalString.NilZero.string_of_uint d = DecimalString.NilEmpty.string_of_uint d.
Proof. now destruct d. Qed.

(** [parseInt] reads back the decimal text of every integer. *)
Lemma parseInt_number_toString (n : Z) : parseInt (number_toString n) = Num n.
Proof.
  destruct n as [ | q | q]; [reflexivity | | ];
    unfold number_toString; cbn [Z.to_int DecimalString.NilZero.string_of_int];
    pose proof (DecimalPos.Unsigned.to_uint_nonnil q) as Hn;
    rewrite (string_of_uint_nonnil _ Hn).
  - now rewrite (parseInt_uint _ Hn), DecimalPos.Unsigned.of_to.
  - change (parseInt (String "-" ?r))
      with (match parse_unsigned r with None => NaN | Some v => Num (-1 * v) end).
    now rewrite (parse_unsigned_uint _ Hn), DecimalPos.Unsigned.of_to.
Qed.



(** ** The permit store *)

Lemma setPermit_run (account : string) (permit : Permit) (st : PermitsStore) :
  setPermit account permit st =
  Normal (mkPermitsStore
            (<[account := <[getHash permit := Some (serialize permit)]>
                            (default ∅ (permits st !! account))]> (permits st))
            (activePermitHash st)).
Proof.
  unfold setPermit, assign_slot.
  destruct (permits st !! account) as [slots | ] eqn:E; cbn.
  - now rewrite E.
  - rewrite lookup_insert_eq. cbn. now rewrite insert_insert_eq.
Qed.

Lemma removePermit_run (account hash : string) (st : PermitsStore) slots :
  permits st !! account = Some slots ->
  removePermit account hash st =
  Normal (mkPermitsStore (<[account := <[hash := None]> slots]> (permits st))
            (activePermitHash st)).
Proof. intros E. unfold removePermit, assign_slot. now rewrite E. Qed.

Lemma getPermit_removed (st : PermitsStore) (account hash : string) slots :
  permits st !! account = Some slots -> slots !! hash = Some None ->
  getPermit st (Some account) (Some hash) = None.
Proof. intros E1 E2. unfold getPermit. rewrite E1. cbn. now rewrite E2. Qed.

(** C8: after [setPermit] of a permit and [removePermit] of its hash, both
    of which succeed, the permit can no longer be fetched and is no longer
    listed for the account, the active pointer of the account is what it
    was, and when that pointer is the removed hash [getActivePermit] answers
    with no permit. *)
Theorem put_then_remove (st : PermitsStore) (A : string) (X : Permit) :
  exists st2,
    (setPermit A X st ≫= removePermit A (getHash X)) = Normal st2 /\
    getPermit st2 (Some A) (Some (getHash X)) = None /\
    getPermits st2 (Some A) !! getHash X = None /\
    getActivePermitHash st2 (Some A) = getActivePermitHash st (Some A) /\
    (getActivePermitHash st (Some A) = Some (getHash X) ->
     getActivePermit st2 (Some A) = None).
Proof.
  rewrite setPermit_run.
  set (slots := <[getHash X := Some (serialize X)]> (default ∅ (permits st !! A))).
  set (st1 := mkPermitsStore (<[A := slots]> (permits st)) (activePermitHash st)).
  assert (permits st1 !! A = Some slots) as E1 by apply lookup_insert_eq.
  eexists. split.
  { unfold mbind, completion_bind, cbind. apply (removePermit_run _ _ _ _ E1). }
  set (st2 := mkPermitsStore _ _).
  assert (permits st2 !! A = Some (<[getHash X := None]> slots)) as E2
    by apply lookup_insert_eq.
  assert (getPermit st2 (Some A) (Some (getHash X)) = None) as Hget.
  { apply (getPermit_removed _ _ _ _ E2), lookup_insert_eq. }
  repeat split.
  - exact Hget.
  - unfold getPermits. rewrite E2. cbn. rewrite lookup_omap.
    now rewrite lookup_insert_eq.
  - unfold getActivePermit. intros Hptr. cbn in Hptr.
    change (activePermitHash st2) with (activePermitHash st).
    now rewrite Hptr.
Qed.



(** ** The identity hash *)

Lemma append_assoc (a b c : string) : (a ++ b) ++ c = a ++ (b ++ c).
Proof. induction a as [ | x a IH]; simpl; [reflexivity | now f_equal]. Qed.

Lemma append_inj_l (a x y : string) : a ++ x = a ++ y -> x = y.
Proof. induction a as [ | c a IH]; simpl; [easy | intros [= H]; auto]. Qed.

(** [escape_char] can be read back, whatever follows. *)
Lemma unescape_escape_char (c : ascii) (r : string) :
  unescape_char (escape_char c ++ r) = Some (c, r).
Proof. destruct c as [[] [] [] [] [] [] [] []]; reflexivity. Qed.

Lemma unescape_char_quote (r : string) : unescape_char (String dquote r) = None.
Proof. reflexivity. Qed.

(** A quoted string ends at its closing quote: two texts that start with an
    escaped string and a quote agree only if the strings and the rests do. *)
Lemma escape_inj (s1 s2 r1 r2 : string) :
  escape s1 ++ String dquote r1 = escape s2 ++ String dquote r2 ->
  s1 = s2 /\ r1 = r2.
Proof.
  revert s2. induction s1 as [ | c1 s1 IH]; intros [ | c2 s2]; cbn [escape].
  - cbn. now intros [= ->].
  - rewrite append_assoc. intros H. apply (f_equal unescape_char) in H.
    rewrite unescape_escape_char in H. discriminate H.
  - rewrite append_assoc. intros H. apply (f_equal unescape_char) in H.
    rewrite unescape_escape_char in H. discriminate H.
  - rewrite !append_assoc. intros H.
    pose proof (f_equal unescape_char H) as H'.
    rewrite !unescape_escape_char in H'. injection H' as -> H'.
    apply IH in H' as [-> ->]. now split.
Qed.

Lemma string_of_uint_digits (d : Decimal.uint) :
  string_forall is_number_char (DecimalString.NilEmpty.string_of_uint d) = true.
Proof. induction d; cbn [DecimalString.NilEmpty.string_of_uint string_forall]; auto. Qed.

Lemma number_toString_chars (n : Z) :
  string_forall is_number_char (number_toString n) = true.
Proof.
  destruct n as [ | q | q]; [reflexivity | | ];
    unfold number_toString; cbn [Z.to_int DecimalString.NilZero.string_of_int];
    rewrite (string_of_uint_nonnil _ (DecimalPos.Unsigned.to_uint_nonnil q));
    [ | cbn [string_forall append] ]; now rewrite string_of_uint_digits.
Qed.

(** Two texts that start with a run of characters of one class, then a
    character outside it, agree only if the runs and the rests do. *)
Lemma run_inj (P : ascii -> bool) (a1 a2 : string) c1 c2 r1 r2 :
  string_forall P a1 = true -> string_forall P a2 = true ->
  P c1 = false -> P c2 = false ->
  a1 ++ String c1 r1 = a2 ++ String c2 r2 ->
  a1 = a2 /\ String c1 r1 = String c2 r2.
Proof.
  revert a2. induction a1 as [ | x a1 IH]; intros [ | y a2]; cbn;
    intros H1 H2 Hc1 Hc2 E.
  - now split.
  - injection E as -> _. apply andb_true_iff in H2 as [H2 _]. congruence.
  - injection E as -> _. apply andb_true_iff in H1 as [H1 _]. congruence.
  - injection E as -> E. apply andb_true_iff in H1 as [_ H1].
    apply andb_true_iff in H2 as [_ H2].
    destruct (IH a2 H1 H2 Hc1 Hc2 E) as [-> ?]. now split.
Qed.

Lemma number_toString_inj (n1 n2 : Z) :
  number_toString n1 = number_toString n2 -> n1 = n2.
Proof.
  intros H. apply (f_equal parseInt) in H.
  rewrite !parseInt_number_toString in H. now injection H.
Qed.

(** A number ends at the separator that follows it. *)
Lemma number_inj (n1 n2 : Z) (c : ascii) (r1 r2 : string) :
  is_number_char c = false ->
  number_toString n1 ++ String c r1 = number_toString n2 ++ String c r2 ->
  n1 = n2 /\ r1 = r2.
Proof.
  intros Hc E.
  apply (run_inj is_number_char) in E as [E1 [= E2]];
    auto using number_toString_chars.
  split; [now apply number_toString_inj | assumption].
Qed.

Lemma PermitType_string_inj (t1 t2 : PermitType) :
  PermitType_string t1 = PermitType_string t2 -> t1 = t2.
Proof. destruct t1, t2; easy. Qed.

Lemma JSON_quote_app (s r : string) :
  JSON_quote s ++ r = String dquote (escape s ++ String dquote r).
Proof. unfold JSON_quote. cbn. now rewrite append_assoc. Qed.

(** The JSON text of the hashed object determines the tuple. *)
Lemma hashedData_inj (p q : Permit) :
  JSON_stringify (hashedData p) = JSON_stringify (hashedData q) ->
  core p = core q.
Proof.
  unfold JSON_stringify, hashedData, core.
  cbn [map join fst snd JSON_prim].
  rewrite !append_assoc, !JSON_quote_app. cbn [append]. intros H.
  repeat first
    [ apply escape_inj in H as [? H]
    | apply number_inj in H as [? H]; [ | reflexivity]
    | injection H as H ].
  match goal with
  | Ht : PermitType_string _ = PermitType_string _ |- _ =>
      apply PermitType_string_inj in Ht
  end.
  congruence.
Qed.

Lemma hashedData_core (p q : Permit) :
  core p = core q -> hashedData p = hashedData q.
Proof. unfold core, hashedData. intros [= -> -> -> -> -> ->]. reflexivity. Qed.

(** C3: the hash of a permit is a function of the tuple of kind, issuer,
    expiration, recipient, validator id and validator contract: it is the
    same after any change to the name, the two signatures, the signed chain
    id and the sealing pair; the text that is hashed differs whenever the
    tuple does, and so does the hash as long as the digest of ethers does
    not collide. *)
Theorem getHash_core (p q : Permit) :
  (forall n sp si sr sc,
     getHash (new_Permit n (type p) (issuer p) (expiration p) (recipient p)
                (validatorId p) (validatorContract p) sp si sr sc)
     = getHash p) /\
  (core p = core q -> getHash p = getHash q) /\
  (core p <> core q ->
   JSON_stringify (hashedData p) <> JSON_stringify (hashedData q)) /\
  ((forall s1 s2, keccak256 (id s1) = keccak256 (id s2) -> s1 = s2) ->
   core p <> core q -> getHash p <> getHash q).
Proof.
  repeat split.
  - intros H. unfold getHash. now rewrite (hashedData_core p q H).
  - intros H E. now apply H, hashedData_inj.
  - intros Hinj H E. apply H, hashedData_inj, Hinj, E.
Qed.


(** ** Unsealing *)

(** Induction on a value, with the hypothesis available for every element
    of an array and every property of an object. *)
Lemma JSValue_nested_ind (P : JSValue -> Prop) :
  P VUndefined -> P VNull -> (forall b, P (VBoolean b)) ->
  (forall n, P (VNumber n)) -> (forall n, P (VBigInt n)) ->
  (forall s, P (VString s)) ->
  (forall items, Forall P items -> P (VArray items)) ->
  (forall props, Forall (fun kv => P (snd kv)) props -> P (VObject props)) ->
  forall v, P v.
Proof.
  intros Hu Hn Hb Hnum Hbig Hs Harr Hobj.
  fix IH 1. intros [ | | b | n | n | s | items | props].
  - exact Hu.
  - exact Hn.
  - apply Hb.
  - apply Hnum.
  - apply Hbig.
  - apply Hs.
  - apply Harr. induction items as [ | x l IHl]; constructor;
      [apply IH | exact IHl].
  - apply Hobj. induction props as [ | [k x] l IHl]; constructor;
      [apply IH | exact IHl].
Qed.

Lemma unseal_sealed_eq (p : Permit) (item : JSValue) :
  unseal_sealed p item =
  match getAsSealedItem item with
  | Some i =>
      if isSealedBool i then
        Some (Normal (VBoolean (Boolean_of_bigint (unsealCiphertext p (data i)))))
      else if isSealedAddress i then
        Some (a ← getAddress ("0x" ++ slice_last 40
                 (bigint_toString16 (unsealCiphertext p (data i))));
              Normal (VString a))
      else if isSealedUint i then
        Some (Normal (VBigInt (unsealCiphertext p (data i))))
      else None
  | None => None
  end.
Proof. reflexivity. Qed.

(** A primitive is returned as it is. *)
Lemma unseal_primitive (p : Permit) (item : JSValue) :
  match item with VArray _ | VObject _ => False | _ => True end ->
  unseal p item = Normal item.
Proof. now destruct item. Qed.

(** A sealed boolean becomes a boolean. *)
Lemma unseal_bool (p : Permit) (item : JSValue) i :
  getAsSealedItem item = Some i -> isSealedBool i = true ->
  unseal p item =
  Normal (VBoolean (Boolean_of_bigint (unsealCiphertext p (data i)))).
Proof.
  intros Hi Hb. destruct item; try discriminate Hi.
  cbn [unseal]. now rewrite unseal_sealed_eq, Hi, Hb.
Qed.

(** A sealed unsigned integer becomes the decrypted integer. *)
Lemma unseal_uint (p : Permit) (item : JSValue) i :
  getAsSealedItem item = Some i -> isSealedUint i = true ->
  unseal p item = Normal (VBigInt (unsealCiphertext p (data i))).
Proof.
  intros Hi Hu. destruct item; try discriminate Hi.
  cbn [unseal]. rewrite unseal_sealed_eq, Hi, Hu.
  assert (isSealedBool i = false /\ isSealedAddress i = false) as [-> ->];
    [ | reflexivity].
  revert Hu. unfold isSealedUint, isSealedBool, isSealedAddress.
  now destruct (utype i).
Qed.

(** A sealed address becomes what [getAddress] makes of the last 40
    hexadecimal digits of the decrypted integer, an error included. *)
Lemma unseal_address (p : Permit) (item : JSValue) i :
  getAsSealedItem item = Some i -> isSealedAddress i = true ->
  unseal p item =
  (a ← getAddress ("0x" ++ slice_last 40
        (bigint_toString16 (unsealCiphertext p (data i))));
   Normal (VString a)).
Proof.
  intros Hi Ha. destruct item; try discriminate Hi.
  cbn [unseal]. rewrite unseal_sealed_eq, Hi, Ha.
  assert (isSealedBool i = false) as ->; [ | reflexivity].
  revert Ha. unfold isSealedBool, isSealedAddress. now destruct (utype i).
Qed.

Lemma each_Forall2 {A B} (f : A -> completion B) (R : A -> B -> Prop) l :
  Forall (fun x => forall r, f x = Normal r -> R x r) l ->
  forall rs, each f l = Normal rs -> Forall2 R l rs.
Proof.
  induction 1 as [ | x l Hx Hl IHl]; intros rs; cbn.
  - intros [= <-]. constructor.
  - destruct (f x) as [v | ] eqn:Ev; cbn; [ | discriminate].
    destruct (each f l) as [vs | ] eqn:Evs; cbn; [ | discriminate].
    intros [= <-]. constructor; auto.
Qed.

Lemma sealed_item_kind (item : JSValue) i :
  getAsSealedItem item = Some i ->
  isSealedBool i = false -> isSealedAddress i = false -> isSealedUint i = true.
Proof.
  destruct item as [ | | | | | | | props]; try discriminate.
  unfold getAsSealedItem.
  destruct (prop_get "data" props) as [[] | ]; try discriminate.
  destruct (prop_get "utype" props) as [[] | ]; try discriminate.
  destruct (FheTypes_of_value _) as [t | ]; try discriminate.
  destruct (existsb _ _) eqn:Hall; try discriminate.
  intros [= <-]. revert Hall. unfold isSealedBool, isSealedAddress, isSealedUint.
  cbn. now destruct t.
Qed.

(** X24: whenever [unseal] returns, its result has the shape of the item,
    with each sealed boolean, address and unsigned integer replaced by its
    decrypted value and everything else kept. *)
Lemma unseal_Unsealed (p : Permit) (item r : JSValue) :
  unseal p item = Normal r -> Unsealed p item r.
Proof.
  revert r. induction item as [ | | b | n | n | s | items IH | props IH]
    using JSValue_nested_ind; intros r;
    try (intros [= <-]; now apply Unsealed_primitive).
  - (* array *)
    cbn [unseal unseal_sealed getAsSealedItem].
    destruct (each _ items) as [rs | ] eqn:E; cbn; [ | discriminate].
    intros [= <-]. constructor.
    now apply (each_Forall2 _ _ _ IH).
  - (* object *)
    cbn [unseal]. rewrite unseal_sealed_eq.
    destruct (getAsSealedItem (VObject props)) as [i | ] eqn:Hi.
    + destruct (isSealedBool i) eqn:Hb.
      { intros [= <-]. now apply Unsealed_bool. }
      destruct (isSealedAddress i) eqn:Ha.
      { destruct (getAddress _) as [a | ] eqn:Hg; cbn; [ | discriminate].
        intros [= <-]. now apply Unsealed_address with (i := i). }
      rewrite (sealed_item_kind _ _ Hi Hb Ha).
      intros [= <-].
      exact (Unsealed_uint p _ i Hi Hb Ha (sealed_item_kind _ _ Hi Hb Ha)).
    + destruct (each _ props) as [rs | ] eqn:E; cbn; [ | discriminate].
      intros [= <-]. constructor; [assumption | ].
      apply (each_Forall2 _ _ _) with (2 := E).
      apply Forall_impl with (1 := IH). intros [k x] Hx v. cbn.
      destruct (unseal p x) as [w | ] eqn:Ew; cbn; [ | discriminate].
      intros [= <-]. cbn. split; [reflexivity | apply Hx, Ew].
Qed.


Lemma substring_all (s : string) (n : nat) :
  (strlen s <= n)%nat -> substring 0 n s = s.
Proof.
  revert n. induction s as [ | c s IH]; intros [ | n]; cbn; intros H;
    try reflexivity; try lia.
  f_equal. apply IH. unfold strlen. lia.
Qed.

Lemma slice_last_short (s : string) (n : nat) :
  (strlen s <= n)%nat -> slice_last n s = s.
Proof.
  intros H. unfold slice_last.
  replace (strlen s - n)%nat with 0%nat by lia. now apply substring_all.
Qed.

(** [getAddress] refuses a [0x] followed by fewer than 40 characters. *)
Lemma getAddress_short (s : string) :
  (strlen s < 40)%nat -> getAddress ("0x" ++ s) = Throw "invalid address".
Proof.
  intros H. unfold getAddress.
  assert (is_hex_address ("0x" ++ s) = false) as ->.
  { unfold is_hex_address, strip0x. cbn [append].
    change (startsWith "0x" (String "0" (String "x" s))) with (String.prefix EmptyString s).
    replace (String.prefix EmptyString s) with true by now destruct s.
    change (strlen (String "0" (String "x" s)) - 2)%nat with (strlen s - 0)%nat.
    rewrite Nat.sub_0_r. cbn [substring].
    rewrite substring_all by reflexivity.
    apply andb_false_iff. left. apply Nat.eqb_neq. lia. }
  reflexivity.
Qed.

Lemma string_forall_substring (P : ascii -> bool) (s : string) (i n : nat) :
  string_forall P s = true -> string_forall P (substring i n s) = true.
Proof.
  revert i n. induction s as [ | c s IH]; intros [ | i] [ | n]; cbn; auto;
    intros H; apply andb_true_iff in H as [Hc Hs]; auto.
  rewrite Hc. now apply IH.
Qed.

Lemma strlen_substring (s : string) (i n : nat) :
  (i + n <= strlen s)%nat -> strlen (substring i n s) = n.
Proof.
  unfold strlen. revert i n.
  induction s as [ | c s IH]; intros [ | i] [ | n]; cbn; intros H;
    try reflexivity; try lia.
  - f_equal. apply IH. lia.
  - apply IH. lia.
  - apply IH. lia.
Qed.

Lemma string_exists_none (P Q : ascii -> bool) (s : string) :
  (forall c, P c = true -> Q c = false) ->
  string_forall P s = true -> string_exists Q s = false.
Proof.
  intros HPQ. induction s as [ | c s IH]; cbn; [reflexivity | ].
  intros H. apply andb_true_iff in H as [Hc Hs].
  now rewrite (HPQ c Hc), IH.
Qed.

Lemma string_forall_impl (P Q : ascii -> bool) (s : string) :
  (forall c, P c = true -> Q c = true) ->
  string_forall P s = true -> string_forall Q s = true.
Proof.
  intros HPQ. induction s as [ | c s IH]; cbn; [reflexivity | ].
  intros H. apply andb_true_iff in H as [Hc Hs].
  now rewrite (HPQ c Hc), IH.
Qed.

Lemma lower_hex_not_upper (c : ascii) :
  is_lower_hex c = true -> is_upper_AF c = false.
Proof.
  unfold is_lower_hex, is_digit, is_lower_af, is_upper_AF, in_range.
  intros H. apply andb_false_iff.
  apply orb_true_iff in H as [H | H]; apply andb_true_iff in H as [H1 H2];
    apply Z.leb_le in H1, H2; [left | right]; apply Z.leb_gt; lia.
Qed.

Lemma lower_hex_is_hex (c : ascii) : is_lower_hex c = true -> is_hex_digit c = true.
Proof.
  unfold is_lower_hex, is_hex_digit. intros H.
  apply orb_true_iff in H as [-> | ->]; [reflexivity | ].
  now rewrite orb_true_r.
Qed.

Lemma hex_string_of_uint_chars (d : Hexadecimal.uint) :
  string_forall is_lower_hex (HexadecimalString.NilEmpty.string_of_uint d) = true.
Proof.
  induction d; cbn [HexadecimalString.NilEmpty.string_of_uint string_forall];
    auto.
Qed.

Lemma bigint_toString16_chars (bn : Z) :
  0 <= bn -> string_forall is_lower_hex (bigint_toString16 bn) = true.
Proof.
  destruct bn as [ | q | q]; [reflexivity | | lia]. intros _.
  unfold bigint_toString16.
  cbn [Z.to_hex_int HexadecimalString.NilZero.string_of_int].
  unfold HexadecimalString.NilZero.string_of_uint.
  destruct (Pos.to_hex_uint q) eqn:E; try reflexivity; rewrite <- E;
    apply hex_string_of_uint_chars.
Qed.

(** [getAddress] accepts a [0x] followed by 40 lower-case hexadecimal
    digits and returns its checksummed form. *)
Lemma getAddress_lower_hex (t : string) :
  strlen t = 40%nat -> string_forall is_lower_hex t = true ->
  getAddress ("0x" ++ t) = Normal (getChecksumAddress ("0x" ++ t)).
Proof.
  intros Hlen Hhex. unfold getAddress.
  assert (startsWith "0x" ("0x" ++ t) = true) as Hp.
  { cbn [append]. change (String.prefix EmptyString t = true). now destruct t. }
  assert (is_hex_address ("0x" ++ t) = true) as ->.
  { unfold is_hex_address, strip0x. rewrite Hp. cbn [append].
    change (strlen (String "0" (String "x" t)) - 2)%nat with (strlen t - 0)%nat.
    rewrite Nat.sub_0_r. cbn [substring].
    rewrite substring_all by reflexivity.
    rewrite Hlen, (string_forall_impl _ _ _ lower_hex_is_hex Hhex).
    reflexivity. }
  rewrite Hp.
  assert (is_mixed_case ("0x" ++ t) = false) as ->; [ | reflexivity].
  unfold is_mixed_case. cbn [append string_exists].
  now rewrite (string_exists_none _ _ _ lower_hex_not_upper Hhex).
Qed.

(** X25: a sealed address whose decrypted integer has at least 40
    hexadecimal digits becomes the checksummed address made of the last
    40. *)
Lemma unseal_long_address (p : Permit) (item : JSValue) i :
  getAsSealedItem item = Some i -> isSealedAddress i = true ->
  0 <= unsealCiphertext p (data i) ->
  (40 <= strlen (bigint_toString16 (unsealCiphertext p (data i))))%nat ->
  unseal p item =
  Normal (VString (getChecksumAddress
            ("0x" ++ slice_last 40
                       (bigint_toString16 (unsealCiphertext p (data i)))))).
Proof.
  intros Hi Ha Hpos Hlen. rewrite (unseal_address p item i Hi Ha).
  rewrite getAddress_lower_hex; [reflexivity | | ].
  - unfold slice_last. apply strlen_substring. lia.
  - unfold slice_last. apply string_forall_substring.
    now apply bigint_toString16_chars.
Qed.

(** C9, where the code departs from it: a sealed address whose decrypted
    integer has fewer than 40 hexadecimal digits, that is an address that
    begins with a zero digit, is not replaced by an address: [unseal]
    throws. *)
Theorem unseal_short_address_throws (p : Permit) (item : JSValue) i :
  getAsSealedItem item = Some i -> isSealedAddress i = true ->
  (strlen (bigint_toString16 (unsealCiphertext p (data i))) < 40)%nat ->
  unseal p item = Throw "invalid address".
Proof.
  intros Hi Ha Hlen. rewrite (unseal_address p item i Hi Ha).
  rewrite slice_last_short by lia. now rewrite getAddress_short.
Qed.


(* ================================================================= *)
(** * Further properties of the store *)

Ltac not_both :=
  intros [? ?];
  repeat match goal with H : _ \/ _ |- _ => destruct H end;
  congruence.

Lemma getPermit_slot (st : PermitsStore) (account hash : string) :
  getPermit st (Some account) (Some hash)
  = deserialize <$> mjoin (slot st account hash).
Proof. unfold getPermit, slot. now destruct (mjoin _). Qed.

(** The slots after [state.permits[account][hash] = v], the account's slot
    map being created when missing. *)
Lemma slot_assigned (st : PermitsStore) (A h : string) v act (B h' : string) :
  slot (mkPermitsStore
          (<[A := <[h := v]> (default ∅ (permits st !! A))]> (permits st)) act)
       B h'
  = if decide (B = A /\ h' = h) then Some v else slot st B h'.
Proof.
  unfold slot. cbn. destruct (decide (B = A)) as [-> | HB].
  - rewrite lookup_insert_eq. cbn. destruct (decide (h' = h)) as [-> | Hh].
    + rewrite lookup_insert_eq. now rewrite decide_True.
    + rewrite lookup_insert_ne by congruence.
      rewrite decide_False by not_both.
      now destruct (permits st !! A).
  - rewrite lookup_insert_ne by congruence. now rewrite decide_False by not_both.
Qed.

(** X1: a permit that was put is what [getPermit] returns under its hash,
    and what [getPermits] lists under its hash. *)
Theorem setPermit_getPermit (st : PermitsStore) (A : string) (X : Permit) :
  exists st',
    setPermit A X st = Normal st' /\
    getPermit st' (Some A) (Some (getHash X)) = Some X /\
    getPermits st' (Some A) !! getHash X = Some X.
Proof.
  rewrite setPermit_run. eexists. split; [reflexivity | ].
  split.
  - rewrite getPermit_slot, slot_assigned, decide_True by (split; reflexivity). cbn.
    now rewrite deserialize_serialize.
  - unfold getPermits. cbn. rewrite lookup_insert_eq. cbn.
    rewrite lookup_omap, lookup_insert_eq. cbn.
    now rewrite deserialize_serialize.
Qed.

(** X2: [getPermits] lists, under each hash, exactly what [getPermit]
    returns for it: removed permits and missing hashes are left out of
    both. *)
Theorem getPermits_getPermit (st : PermitsStore) (A h : string) :
  getPermits st (Some A) !! h = getPermit st (Some A) (Some h).
Proof.
  unfold getPermits, getPermit. rewrite lookup_omap.
  destruct (permits st !! A) as [slots | ]; cbn.
  - now destruct (slots !! h) as [[saved | ] | ].
  - now rewrite lookup_empty.
Qed.


Lemma removePermit_normal (st st' : PermitsStore) (A h : string) :
  removePermit A h st = Normal st' ->
  st' = mkPermitsStore
          (<[A := <[h := None]> (default ∅ (permits st !! A))]> (permits st))
          (activePermitHash st).
Proof.
  unfold removePermit, assign_slot.
  destruct (permits st !! A) as [slots | ]; [ | discriminate].
  now intros [= <-].
Qed.

(** X4: a removal that goes through keeps the key of the slot, now holding
    [undefined], so [getPermit] finds nothing there; the keys of the
    account's slot map are the old ones and the removed hash; every other
    slot and every active pointer is as before. *)
Theorem removePermit_soft (st st' : PermitsStore) (A h : string) :
  removePermit A h st = Normal st' ->
  slot st' A h = Some None /\
  getPermit st' (Some A) (Some h) = None /\
  dom (default ∅ (permits st' !! A)) = {[h]} ∪ dom (default ∅ (permits st !! A)) /\
  (forall B h', B <> A \/ h' <> h -> slot st' B h' = slot st B h') /\
  activePermitHash st' = activePermitHash st.
Proof.
  intros Hrun. apply removePermit_normal in Hrun as ->.
  assert (slot (mkPermitsStore
                  (<[A := <[h := None]> (default ∅ (permits st !! A))]> (permits st))
                  (activePermitHash st)) A h = Some None) as Hslot.
  { rewrite slot_assigned. now rewrite decide_True by (split; reflexivity). }
  repeat split.
  - exact Hslot.
  - rewrite getPermit_slot. now rewrite Hslot.
  - cbn. rewrite lookup_insert_eq. cbn. now rewrite dom_insert_L.
  - intros B h' Hne. rewrite slot_assigned. now rewrite decide_False by not_both.
Qed.

Lemma setPermit_twice (st : PermitsStore) (A : string) (X Y : Permit) :
  getHash X = getHash Y ->
  (setPermit A X st ≫= setPermit A Y) = setPermit A Y st.
Proof.
  intros Hh. rewrite (setPermit_run A X st).
  unfold mbind, completion_bind, cbind.
  rewrite !setPermit_run. cbn. rewrite lookup_insert_eq. cbn.
  rewrite insert_insert_eq, Hh. now rewrite insert_insert_eq.
Qed.

(** X5: two permits with the same tuple take the same slot: putting the
    second after the first leaves the store as if only the second had been
    put. *)
Theorem setPermit_replaces (st : PermitsStore) (A : string) (X Y : Permit) :
  core X = core Y ->
  (setPermit A X st ≫= setPermit A Y) = setPermit A Y st.
Proof.
  intros Hcore. apply setPermit_twice.
  unfold getHash. now rewrite (hashedData_core X Y Hcore).
Qed.

(** X6: setting the active pointer makes [getActivePermitHash] return the
    hash and [getActivePermit] return whatever permit the store holds under
    it, none when it holds none; no permit and no other account's pointer
    changes. *)
Theorem setActivePermitHash_get (st : PermitsStore) (A h : string) :
  exists st',
    setActivePermitHash A h st = Normal st' /\
    getActivePermitHash st' (Some A) = Some h /\
    getActivePermit st' (Some A) = getPermit st (Some A) (Some h) /\
    permits st' = permits st /\
    (forall B, B <> A ->
       getActivePermitHash st' (Some B) = getActivePermitHash st (Some B)).
Proof.
  eexists. split; [reflexivity | ]. repeat split.
  - cbn. now rewrite lookup_insert_eq.
  - unfold getActivePermit. cbn. now rewrite lookup_insert_eq.
  - intros B HB. cbn. now rewrite lookup_insert_ne by congruence.
Qed.

(** X7: clearing the active pointer leaves the account without an active
    hash and without an active permit, whatever the store holds; no permit
    and no other account's pointer changes. *)
Theorem removeActivePermitHash_get (st : PermitsStore) (A : string) :
  exists st',
    removeActivePermitHash A st = Normal st' /\
    getActivePermitHash st' (Some A) = None /\
    getActivePermit st' (Some A) = None /\
    permits st' = permits st /\
    (forall B, B <> A ->
       getActivePermitHash st' (Some B) = getActivePermitHash st (Some B)).
Proof.
  eexists. split; [reflexivity | ]. repeat split.
  - cbn. now rewrite lookup_insert_eq.
  - unfold getActivePermit. cbn. now rewrite lookup_insert_eq.
  - intros B HB. cbn. now rewrite lookup_insert_ne by congruence.
Qed.

(** X8: a permit that is put and then made active is the active permit. *)
Theorem put_then_activate (st : PermitsStore) (A : string) (X : Permit) :
  exists st',
    (setPermit A X st ≫= setActivePermitHash A (getHash X)) = Normal st' /\
    getActivePermit st' (Some A) = Some X /\
    getActivePermitHash st' (Some A) = Some (getHash X).
Proof.
  destruct (setPermit_getPermit st A X) as (st1 & H1 & Hget & _).
  rewrite H1. eexists. split; [reflexivity | ]. split.
  - unfold getActivePermit. cbn. rewrite lookup_insert_eq. exact Hget.
  - cbn. now rewrite lookup_insert_eq.
Qed.

Lemma well_keyed_initial : well_keyed initialStore.
Proof. intros A h saved. unfold slot. cbn. now rewrite lookup_empty. Qed.

(** X9: the store keeps every permit under its own hash: the four
    mutations preserve it, and then every permit that [getPermit] or
    [getPermits] returns has the hash it was asked for. *)
Theorem well_keyed_preserved (st : PermitsStore) :
  well_keyed st ->
  (forall A X st', setPermit A X st = Normal st' -> well_keyed st') /\
  (forall A h st', removePermit A h st = Normal st' -> well_keyed st') /\
  (forall A h st', setActivePermitHash A h st = Normal st' -> well_keyed st') /\
  (forall A st', removeActivePermitHash A st = Normal st' -> well_keyed st') /\
  (forall A h p, getPermit st (Some A) (Some h) = Some p -> getHash p = h) /\
  (forall A h p, getPermits st (Some A) !! h = Some p -> getHash p = h).
Proof.
  intros Hwk.
  assert (forall A h p, getPermit st (Some A) (Some h) = Some p -> getHash p = h)
    as Hget.
  { intros A h p. rewrite getPermit_slot.
    destruct (slot st A h) as [[saved | ] | ] eqn:E; cbn; try discriminate.
    intros [= <-]. now apply (Hwk A h). }
  repeat split.
  - intros A X st'. rewrite setPermit_run. intros [= <-] B h saved.
    rewrite slot_assigned. case_decide as Hd.
    + destruct Hd as [-> ->]. intros [= <-]. now rewrite deserialize_serialize.
    + apply Hwk.
  - intros A h st' Hrun B h' saved.
    apply removePermit_normal in Hrun as ->.
    rewrite slot_assigned. case_decide; [discriminate | apply Hwk].
  - intros A h st' [= <-]. exact Hwk.
  - intros A st' [= <-]. exact Hwk.
  - exact Hget.
  - intros A h p. rewrite getPermits_getPermit. apply Hget.
Qed.

(* ================================================================= *)
(** * Further properties of permits *)

(** X10: the stored form of a permit loses nothing: reading a stored permit
    and serialising it again gives the stored form back, and two permits
    with the same stored form are the same permit. *)
Theorem serialize_deserialize (s : SerializedPermit) (p q : Permit) :
  serialize (deserialize s) = s /\
  (serialize p = serialize q <-> p = q).
Proof.
  split.
  - now destruct s as [? ? ? ? ? ? ? ? ? ? [? ?]].
  - split; [ | now intros ->].
    intros H. apply (f_equal deserialize) in H.
    now rewrite !deserialize_serialize in H.
Qed.

(** X11: a call of [sign] that goes through has asked the signer once, for
    the payload of the permit's kind, and has stored the answer as the
    signature of the active party and the chain id as the signed chain id;
    the other signature, the name, the tuple behind the hash and the sealing
    pair are as before, and so is the hash. *)
Theorem sign_success (chainId : string) (signer : AbstractSigner) (p p' : Permit) :
  sign (Some chainId) (Some signer) p = (Normal tt, p') ->
  (exists params,
      getSignatureParams chainId (sign_primaryType p) p = Normal params /\
      signTypedData signer (domain params) (types (typed params))
        (message (typed params))
      = Normal (activeSignature p')) /\
  _signedChainId p' = Some chainId /\
  (if PermitType_eqb (type p) Recipient
   then issuerSignature p' = issuerSignature p
   else recipientSignature p' = recipientSignature p) /\
  name p' = name p /\ core p' = core p /\ sealingPair p' = sealingPair p /\
  getHash p' = getHash p.
Proof.
  rewrite sign_run. cbv zeta.
  destruct (signTypedData _ _ _ _) as [signature | ] eqn:E; [ | discriminate].
  intros [= <-]. split.
  - exists (mkSignatureParams (getSignatureDomain chainId)
              (getSignatureTypesAndMessage (sign_primaryType p)
                 (SignatureTypes (sign_primaryType p)) (permission p))).
    split; [reflexivity | ]. cbn [domain typed]. rewrite E.
    now destruct p as [? [] ? ? ? ? ? ? ? ? ?].
  - destruct p as [? [] ? ? ? ? ? ? ? ? ?]; repeat split.
Qed.

(** X12: after signing with a signer that answers [signature], the permit
    is expired, not signed or valid by its expiration and by whether the
    answer is the sentinel: a signer that answers ["0x"] leaves the permit
    not signed. *)
Theorem sign_then_isValid (now_ms : Z) (chainId signature : string)
    (signer : AbstractSigner) (p : Permit) :
  (forall d t m, signTypedData signer d t m = Normal signature) ->
  isValid now_ms (snd (sign (Some chainId) (Some signer) p))
  = if expiration p <? unix_seconds now_ms then expired
    else if String.eqb signature "0x" then not_signed
    else valid_permit.
Proof.
  intros Hs. rewrite sign_run. cbv zeta. rewrite Hs.
  unfold isValid, isExpired. rewrite isSigned_activeSignature.
  destruct p as [? [] ? ? ? ? ? ? ? ? ?]; cbn;
    destruct (_ <? _); try reflexivity; now destruct (String.eqb _ _).
Qed.

(** X13: time only takes validity away: a permit that is expired stays
    expired, and a permit that is valid was valid at every earlier time. *)
Theorem validity_monotone (now1 now2 : Z) (p : Permit) :
  now1 <= now2 ->
  (isExpired now1 p = true -> isExpired now2 p = true) /\
  (isValid now2 p = valid_permit -> isValid now1 p = valid_permit).
Proof.
  intros Hle.
  assert (unix_seconds now1 <= unix_seconds now2) as Hs
    by (apply Z.div_le_mono; lia).
  assert (isExpired now1 p = true -> isExpired now2 p = true) as Hexp.
  { unfold isExpired. intros H. apply Z.ltb_lt in H. apply Z.ltb_lt. lia. }
  split; [exact Hexp | ].
  unfold isValid, valid_permit.
  destruct (isExpired now2 p) eqn:E2; [discriminate | ].
  destruct (isExpired now1 p) eqn:E1; [ | easy].
  discriminate (Hexp eq_refl).
Qed.

(** X14: what is sent to the signer never depends on the name, the kind
    recorded in the permit, the private sealing key, the recipient's
    signature or the signed chain id: two permits that agree on the issuer,
    the expiration, the recipient, the validator, the public sealing key
    and the issuer's signature give the same payload for every primary
    type; in particular renaming a permit changes no payload. *)
Theorem payload_depends_on (chainId : string) (pt : PermitSignaturePrimaryType)
    (p q : Permit) :
  issuer p = issuer q -> expiration p = expiration q ->
  recipient p = recipient q -> validatorId p = validatorId q ->
  validatorContract p = validatorContract q ->
  publicKey (sealingPair p) = publicKey (sealingPair q) ->
  issuerSignature p = issuerSignature q ->
  getSignatureParams chainId pt p = getSignatureParams chainId pt q /\
  forall n, getSignatureParams chainId pt (updateName n p)
            = getSignatureParams chainId pt p.
Proof.
  intros H1 H2 H3 H4 H5 H6 H7. split; [ | reflexivity].
  destruct p as [? ? ? ? ? ? ? [? ?] ? ? ?], q as [? ? ? ? ? ? ? [? ?] ? ? ?].
  cbn in *. subst. now destruct pt.
Qed.

(** X15: for every primary type, whatever the kind of the permit, the
    message holds exactly the fields of the variant in the variant's order,
    the type declaration declares exactly those fields, under the primary
    type as its key, and every value of the message is the permit's. *)
Theorem payload_matches_types (chainId : string) (pt : PermitSignaturePrimaryType)
    (p : Permit) :
  exists params,
    getSignatureParams chainId pt p = Normal params /\
    domain params = getSignatureDomain chainId /\
    primaryType (typed params) = pt /\
    fst (types (typed params)) = pt /\
    obj_keys (message (typed params)) = SignatureTypes pt /\
    map Field.name (snd (types (typed params))) = SignatureTypes pt /\
    Forall (fun kv => obj_get (fst kv) (permission p) = Some (snd kv))
      (message (typed params)).
Proof.
  eexists. split; [reflexivity | ].
  destruct pt; cbn; repeat split; repeat constructor.
Qed.

(** X26: the export never depends on the sealing pair, the recipient's
    signature or the signed chain id, nor, unless the permit is a sharing
    permit, on the issuer's signature: two permits that agree on the rest
    export the same text. *)
Theorem export_depends_on (p q : Permit) :
  name p = name q -> type p = type q -> issuer p = issuer q ->
  expiration p = expiration q -> recipient p = recipient q ->
  validatorId p = validatorId q -> validatorContract p = validatorContract q ->
  (type p = Sharing -> issuerSignature p = issuerSignature q) ->
  export p = export q.
Proof.
  destruct p as [? tp ? ? ? ? ? ? ? ? ?], q as [? tq ? ? ? ? ? ? ? ? ?]. cbn.
  intros -> -> -> -> -> -> -> Hsig. unfold export, cleanedPermit. cbn.
  destruct tq; cbn; try reflexivity. now rewrite Hsig.
Qed.

(** X27: signing does not move a permit in the store: putting the signed
    permit after the unsigned one leaves the store as if only the signed
    one had been put, and the signed permit is what [getPermit] returns
    under the hash of the unsigned one. *)
Theorem sign_then_put (st : PermitsStore) (A chainId : string)
    (signer : AbstractSigner) (p p' : Permit) :
  sign (Some chainId) (Some signer) p = (Normal tt, p') ->
  (setPermit A p st ≫= setPermit A p') = setPermit A p' st /\
  exists st', setPermit A p' st = Normal st' /\
              getPermit st' (Some A) (Some (getHash p)) = Some p'.
Proof.
  rewrite sign_run. cbv zeta.
  destruct (signTypedData _ _ _ _) as [signature | ]; [ | discriminate].
  intros [= <-].
  set (p' := set_signedChainId _ _).
  assert (getHash p = getHash p') as Hh
    by now destruct p as [? [] ? ? ? ? ? ? ? ? ?].
  split; [now apply setPermit_twice | ].
  rewrite setPermit_run. eexists. split; [reflexivity | ].
  rewrite getPermit_slot, slot_assigned, Hh.
  rewrite decide_True by (split; reflexivity). cbn.
  now rewrite deserialize_serialize.
Qed.

(* ================================================================= *)
(** * Further properties of the variant catalogue *)




Lemma sublist_List_filter {A} (f : A -> bool) (l : list A) :
  sublist (List.filter f l) l.
Proof.
  induction l as [ | x l IH]; cbn; [constructor | ].
  destruct (f x); now constructor.
Qed.

(** X17: for any list of fields, the type declaration is filed under the
    primary type and declares a field exactly when the master list has it
    and it is listed, each with the type of the master list and in the
    order of the master list, whatever the order of the list of fields. *)
Theorem types_declared (pt : PermitSignaturePrimaryType) (fields : list string)
    (values : JSObject) (f : Field.t) :
  let r := getSignatureTypesAndMessage pt fields values in
  fst (types r) = pt /\ primaryType r = pt /\
  (In f (snd (types r)) <->
     In f PermitSignatureAllFields /\ includes fields (Field.name f) = true) /\
  sublist (snd (types r)) PermitSignatureAllFields.
Proof.
  cbv zeta. unfold getSignatureTypesAndMessage. cbn [types primaryType fst snd].
  split; [reflexivity | ]. split; [reflexivity | ].
  split; [apply List.filter_In | apply sublist_List_filter].
Qed.




(* ================================================================= *)
(** * Further properties of unsealing *)

Lemma each_same {A} (f : A -> completion A) (l : list A) :
  Forall (fun x => f x = Normal x) l -> each f l = Normal l.
Proof.
  induction 1 as [ | x l Hx Hl IHl]; cbn; [reflexivity | ].
  now rewrite Hx, IHl.
Qed.

Lemma each_ext {A B} (f g : A -> completion B) (l : list A) :
  Forall (fun x => f x = g x) l -> each f l = each g l.
Proof.
  induction 1 as [ | x l Hx Hl IHl]; cbn; [reflexivity | ].
  now rewrite Hx, IHl.
Qed.

Lemma each_throws {A B} (f : A -> completion B) (l : list A) (x : A) :
  In x l -> throws (f x) -> throws (each f l).
Proof.
  induction l as [ | y l IH]; cbn; [easy | ].
  intros [-> | Hin] Hx.
  - now destruct (f x).
  - destruct (f y); cbn; [ | exact I].
    specialize (IH Hin Hx). now destruct (each f l).
Qed.

(** X19: a value that holds no sealed item, at any depth, is returned as it
    is. *)
Theorem unseal_no_sealed (p : Permit) (item : JSValue) :
  no_sealed item = true -> unseal p item = Normal item.
Proof.
  induction item as [ | | b | n | n | s | items IH | props IH]
    using JSValue_nested_ind; try reflexivity.
  - cbn [no_sealed getAsSealedItem]. intros H.
    cbn [unseal unseal_sealed getAsSealedItem].
    rewrite each_same; [reflexivity | ].
    rewrite forallb_forall in H. rewrite List.Forall_forall in IH |- *.
    intros x Hx. apply IH; auto.
  - cbn [no_sealed]. cbn [unseal]. rewrite unseal_sealed_eq.
    destruct (getAsSealedItem (VObject props)); [discriminate | ].
    intros H.
    rewrite (each_ext _ (fun kv => Normal kv)).
    + rewrite each_same; [reflexivity | ]. now apply List.Forall_forall.
    + rewrite forallb_forall in H. rewrite List.Forall_forall in IH |- *.
      intros [k x] Hx. cbn. specialize (IH _ Hx (H _ Hx)). cbn in IH.
      now rewrite IH.
Qed.

(** X20: one element that cannot be unsealed makes the whole call throw:
    an array throws when unsealing one of its elements throws, and so does
    an object that is not itself a sealed item when unsealing one of its
    values throws. *)
Theorem unseal_throw_propagates (p : Permit) (x : JSValue) :
  throws (unseal p x) ->
  (forall items, In x items -> throws (unseal p (VArray items))) /\
  (forall props k, getAsSealedItem (VObject props) = None ->
     In (k, x) props -> throws (unseal p (VObject props))).
Proof.
  intros Hx. split.
  - intros items Hin. cbn [unseal unseal_sealed getAsSealedItem].
    pose proof (each_throws (fun nestedItem => unseal p nestedItem) items x Hin Hx)
      as Ht.
    now destruct (each _ items).
  - intros props k Hns Hin. cbn [unseal]. rewrite unseal_sealed_eq, Hns.
    assert (throws (each (fun kv => v ← unseal p (snd kv); Normal (fst kv, v))
                      props)) as Ht.
    { apply each_throws with (x := (k, x)); [assumption | ].
      cbn. now destruct (unseal p x). }
    now destruct (each _ props).
Qed.

(** X21: a recognised sealed item is decrypted, never traversed: unsealing
    it gives the boolean, the address or the integer of its kind, from the
    integer [unsealCiphertext] gives for its data. *)
Theorem unseal_leaf (p : Permit) (item : JSValue) (i : SealedItem) :
  getAsSealedItem item = Some i ->
  unseal p item =
  let bn := unsealCiphertext p (data i) in
  if isSealedBool i then Normal (VBoolean (Boolean_of_bigint bn))
  else if isSealedAddress i then
    a ← getAddress ("0x" ++ slice_last 40 (bigint_toString16 bn));
    Normal (VString a)
  else Normal (VBigInt bn).
Proof.
  intros Hi. destruct item; try discriminate Hi.
  cbn [unseal]. rewrite unseal_sealed_eq, Hi. cbv zeta.
  destruct (isSealedBool i) eqn:Hb; [reflexivity | ].
  destruct (isSealedAddress i) eqn:Ha; [reflexivity | ].
  now rewrite (sealed_item_kind _ _ Hi Hb Ha).
Qed.

(** X22: unsealing uses nothing of the permit but its decryption: two
    permits under which every ciphertext decrypts alike unseal every value
    alike, whatever their names, signatures and expirations. *)
Theorem unseal_depends_on (p q : Permit) (item : JSValue) :
  (forall c, unsealCiphertext p c = unsealCiphertext q c) ->
  unseal p item = unseal q item.
Proof.
  intros Hc.
  assert (forall v, unseal_sealed p v = unseal_sealed q v) as Hs.
  { intros v. rewrite !unseal_sealed_eq.
    destruct (getAsSealedItem v) as [i | ]; [ | reflexivity].
    now rewrite Hc. }
  induction item as [ | | b | n | n | s | items IH | props IH]
    using JSValue_nested_ind; try reflexivity.
  - cbn [unseal]. rewrite Hs.
    destruct (unseal_sealed q (VArray items)); [reflexivity | ].
    now rewrite (each_ext _ (fun nestedItem => unseal q nestedItem)).
  - cbn [unseal]. rewrite Hs.
    destruct (unseal_sealed q (VObject props)); [reflexivity | ].
    rewrite (each_ext _ (fun kv => v ← unseal q (snd kv); Normal (fst kv, v)));
      [reflexivity | ].
    apply Forall_impl with (1 := IH). intros kv Hkv. now rewrite Hkv.
Qed.

(** X23: the sealed kinds are told apart without overlap: a member of
    [FheAllUTypes] is [Bool], a member of [FheUintUTypes] or [Uint160], and
    exactly one of the three. *)
Theorem FheAllUTypes_kinds (t : FheTypes) :
  (In t FheAllUTypes <-> t = Bool \/ In t FheUintUTypes \/ t = Uint160) /\
  ~ In Bool FheUintUTypes /\ ~ In Uint160 FheUintUTypes /\
  List.NoDup FheAllUTypes.
Proof.
  clear. split; [ | split; [ | split]].
  - destruct t; cbn; intuition discriminate.
  - cbn. intuition discriminate.
  - cbn. intuition discriminate.
  - repeat constructor; cbn; intuition discriminate.
Qed.

End PermitModule.

(* ================================================================= *)
(** * The statements at sample values *)

(** [isValid_spec] on an expired, an unsigned and a valid permit. *)
Lemma isValid_spec_witness :
  isValid 1800000000000 permit_on_the_second = expired /\
  isValid 1600000000000 (unsigned_permit Self) = not_signed /\
  isValid 1600000000000 permit_on_the_second = valid_permit.
Proof.
  destruct (isValid_spec 1800000000000 permit_on_the_second) as [H1 _].
  destruct (isValid_spec 1600000000000 (unsigned_permit Self)) as (_ & H2 & _).
  destruct (isValid_spec 1600000000000 permit_on_the_second) as (_ & _ & H3).
  split; [ | split].
  - apply H1. reflexivity.
  - apply H2; [vm_compute; discriminate | reflexivity].
  - apply H3; [vm_compute; discriminate | discriminate].
Defined.

(** [getHash_core] with a digest that keeps its argument: renaming keeps the
    hash, another kind and recipient change it. *)
Lemma getHash_core_witness :
  getHash plain_digest plain_digest (updateName "renamed" signed_self_permit)
  = getHash plain_digest plain_digest signed_self_permit /\
  getHash plain_digest plain_digest signed_self_permit
  <> getHash plain_digest plain_digest sharing_permit.
Proof.
  destruct (getHash_core plain_digest plain_digest
              (updateName "renamed" signed_self_permit) signed_self_permit)
    as (_ & H1 & _).
  destruct (getHash_core plain_digest plain_digest
              signed_self_permit sharing_permit) as (_ & _ & _ & H2).
  split.
  - apply H1. reflexivity.
  - apply H2; [intros s1 s2 E; exact E | discriminate].
Defined.

(** [sign_failure_leaves_permit] without a chain id, and with a signer that
    rejects. *)
Lemma sign_failure_leaves_permit_witness :
  throws (fst (sign accept_all None (Some rejecting_signer) (unsigned_permit Self))) /\
  snd (sign accept_all (Some "1") (Some rejecting_signer) (unsigned_permit Sharing))
  = unsigned_permit Sharing.
Proof.
  split.
  - apply (sign_failure_leaves_permit accept_all None (Some rejecting_signer)
             (unsigned_permit Self)).
    left. reflexivity.
  - destruct (sign_failure_leaves_permit accept_all (Some "1")
                (Some rejecting_signer) (unsigned_permit Sharing)) as [_ Hkeep].
    apply (Hkeep "user rejected the request"). reflexivity.
Defined.

(** [export_fields] on the key [name] of a signed self permit. *)
Lemma export_fields_witness :
  In "name" ["name"; "type"; "issuer"; "expiration"; "recipient";
             "validatorId"; "validatorContract"; "issuerSignature"].
Proof.
  destruct (export_fields signed_self_permit) as (_ & _ & _ & _ & _ & _ & _ & _ & _ & H).
  apply H. reflexivity.
Defined.



(** [put_then_remove] on a store whose active pointer for the account is
    the hash of the permit. *)
Lemma put_then_remove_witness :
  let h := getHash plain_digest plain_digest signed_self_permit in
  let st := mkPermitsStore ∅ {[ "alice" := Some h ]} in
  exists st2,
    (setPermit plain_digest plain_digest "alice" signed_self_permit st
       ≫= removePermit "alice" h) = Normal st2 /\
    getActivePermit st2 (Some "alice") = None.
Proof.
  cbv zeta.
  destruct (put_then_remove plain_digest plain_digest
              (mkPermitsStore ∅
                 {[ "alice" := Some (getHash plain_digest plain_digest
                                       signed_self_permit) ]})
              "alice" signed_self_permit) as (st2 & H1 & _ & _ & _ & H2).
  exists st2. split; [exact H1 | ]. apply H2. reflexivity.
Defined.

(** [unseal_short_address_throws] on a sealed address that decrypts to
    zero. *)
Lemma unseal_short_address_throws_witness :
  unseal plain_digest no_icap unseal_to_zero never_hardhat (fun _ => 0)
    signed_self_permit (sealed_item "0xc1f3" Uint160)
  = Throw "invalid address".
Proof.
  apply (unseal_short_address_throws plain_digest no_icap unseal_to_zero
           never_hardhat (fun _ => 0) signed_self_permit
           (sealed_item "0xc1f3" Uint160) (mkSealedItem "0xc1f3" Uint160));
    [reflexivity | reflexivity | vm_compute; lia].
Defined.

(** The nested value of the tests: a sealed boolean and a sealed address
    among plain values come back as a boolean and an address, in a
    structure of the same shape. *)
Example unseal_nested :
  unseal plain_digest no_icap sample_unseal never_hardhat (fun _ => 0)
    signed_self_permit
    (VObject [ ("count", VNumber 3);
               ("flags", VArray [sealed_item "yes" Bool; VBoolean false]);
               ("owner", sealed_item "owner" Uint160);
               ("note", VString "plain") ])
  = Normal
      (VObject [ ("count", VNumber 3);
                 ("flags", VArray [VBoolean true; VBoolean false]);
                 ("owner", VString "0x52908400098527886e0f7030069857d2e4169ee7");
                 ("note", VString "plain") ]).
Proof. vm_compute. reflexivity. Qed.

(** One sealed zero address makes the whole call throw. *)
Example unseal_nested_zero_address :
  unseal plain_digest no_icap sample_unseal never_hardhat (fun _ => 0)
    signed_self_permit
    (VArray [sealed_item "yes" Bool; sealed_item "nobody" Uint160])
  = Throw "invalid address".
Proof. vm_compute. reflexivity. Qed.

(* ================================================================= *)
(** * The further properties at sample values *)

(** [removePermit_soft] on a store that holds one permit. *)
Lemma removePermit_soft_witness :
  let st := mkPermitsStore
              {[ "alice" := {[ "0xh" := Some (serialize signed_self_permit) ]} ]} ∅ in
  let st' := mkPermitsStore {[ "alice" := {[ "0xh" := None ]} ]} ∅ in
  removePermit "alice" "0xh" st = Normal st' /\
  slot st' "alice" "0xh" = Some None /\
  getPermit st' (Some "alice") (Some "0xh") = None.
Proof.
  cbv zeta.
  assert (removePermit "alice" "0xh"
            (mkPermitsStore
               {[ "alice" := {[ "0xh" := Some (serialize signed_self_permit) ]} ]} ∅)
          = Normal (mkPermitsStore {[ "alice" := {[ "0xh" := None ]} ]} ∅)) as H
    by (vm_compute; reflexivity).
  split; [exact H | ].
  destruct (removePermit_soft _ _ _ _ H) as (H1 & H2 & _).
  split; [exact H1 | exact H2].
Defined.

(** [setPermit_replaces] on two permits with one tuple. *)
Lemma setPermit_replaces_witness :
  (setPermit plain_digest plain_digest "alice" signed_self_permit initialStore
     ≫= setPermit plain_digest plain_digest "alice" renamed_self_permit)
  = setPermit plain_digest plain_digest "alice" renamed_self_permit initialStore.
Proof.
  apply (setPermit_replaces plain_digest plain_digest initialStore "alice"
           signed_self_permit renamed_self_permit).
  reflexivity.
Defined.

(** [well_keyed_preserved] from the initial store. *)
Lemma well_keyed_preserved_witness :
  well_keyed plain_digest plain_digest
    (mkPermitsStore
       {[ "alice" :=
            {[ getHash plain_digest plain_digest signed_self_permit
               := Some (serialize signed_self_permit) ]} ]} ∅).
Proof.
  destruct (well_keyed_preserved plain_digest plain_digest initialStore
              (well_keyed_initial plain_digest plain_digest)) as (H & _).
  apply (H "alice" signed_self_permit). vm_compute. reflexivity.
Defined.

(** [sign_success] on an unsigned self permit and a signer that accepts. *)
Lemma sign_success_witness :
  let p := unsigned_permit Self in
  let p' := set_signedChainId (Some "1") (set_issuerSignature "0xabcd" p) in
  sign accept_all (Some "1") (Some (constant_signer "0xabcd")) p = (Normal tt, p') /\
  _signedChainId p' = Some "1" /\
  getHash plain_digest plain_digest p' = getHash plain_digest plain_digest p.
Proof.
  cbv zeta.
  assert (sign accept_all (Some "1") (Some (constant_signer "0xabcd"))
            (unsigned_permit Self)
          = (Normal tt,
             set_signedChainId (Some "1")
               (set_issuerSignature "0xabcd" (unsigned_permit Self)))) as H
    by reflexivity.
  split; [exact H | ].
  destruct (sign_success plain_digest plain_digest accept_all _ _ _ _ H)
    as (_ & H1 & _ & _ & _ & _ & H2).
  split; [exact H1 | exact H2].
Defined.

(** [sign_then_isValid] on a signer that answers with a signature. *)
Lemma sign_then_isValid_witness :
  isValid 1600000000000
    (snd (sign accept_all (Some "1") (Some (constant_signer "0xabcd"))
            (unsigned_permit Self)))
  = valid_permit.
Proof.
  rewrite (sign_then_isValid accept_all 1600000000000 "1" "0xabcd"
             (constant_signer "0xabcd") (unsigned_permit Self));
    [reflexivity | intros d t m; reflexivity].
Defined.

(** [validity_monotone] on a permit valid at the later of two times. *)
Lemma validity_monotone_witness :
  isValid 1600000000000 permit_on_the_second = valid_permit.
Proof.
  assert (1600000000000 <= 1650000000000) as Hle by lia.
  destruct (validity_monotone 1600000000000 1650000000000
              permit_on_the_second Hle) as [_ H].
  apply H. reflexivity.
Defined.

(** [payload_depends_on] on two permits that differ in name, private key,
    recipient signature and signed chain id. *)
Lemma payload_depends_on_witness :
  getSignatureParams accept_all "1" PermissionedIssuerSelf signed_self_permit
  = getSignatureParams accept_all "1" PermissionedIssuerSelf renamed_self_permit.
Proof.
  apply (payload_depends_on accept_all "1" PermissionedIssuerSelf
           signed_self_permit renamed_self_permit); reflexivity.
Defined.


(** [unseal_no_sealed] on a nested value. *)
Lemma unseal_no_sealed_witness :
  let item := VObject [ ("a", VArray [VNumber 1; VString "x"]); ("b", VNull) ] in
  unseal plain_digest no_icap unseal_to_zero never_hardhat (fun _ => 0)
    signed_self_permit item
  = Normal item.
Proof.
  cbv zeta. apply unseal_no_sealed. reflexivity.
Defined.

(** [unseal_throw_propagates] on an array that holds a sealed zero
    address. *)
Lemma unseal_throw_propagates_witness :
  throws (unseal plain_digest no_icap sample_unseal never_hardhat (fun _ => 0)
            signed_self_permit
            (VArray [VNumber 1; sealed_item "nobody" Uint160])).
Proof.
  assert (throws (unseal plain_digest no_icap sample_unseal never_hardhat
                    (fun _ => 0) signed_self_permit
                    (sealed_item "nobody" Uint160))) as Hx
    by (vm_compute; exact I).
  destruct (unseal_throw_propagates _ _ _ _ _ _ _ Hx) as [H _].
  apply H. right. left. reflexivity.
Defined.

(** [unseal_leaf] on a sealed boolean. *)
Lemma unseal_leaf_witness :
  unseal plain_digest no_icap sample_unseal never_hardhat (fun _ => 0)
    signed_self_permit (sealed_item "yes" Bool)
  = Normal (VBoolean true).
Proof.
  rewrite (unseal_leaf plain_digest no_icap sample_unseal never_hardhat
             (fun _ => 0) signed_self_permit (sealed_item "yes" Bool)
             (mkSealedItem "yes" Bool)); reflexivity.
Defined.

(** [unseal_depends_on] on two permits of different kinds under one key. *)
Lemma unseal_depends_on_witness :
  unseal plain_digest no_icap unseal_to_zero never_hardhat (fun _ => 0)
    signed_self_permit (VArray [sealed_item "0xc1f3" Uint64])
  = unseal plain_digest no_icap unseal_to_zero never_hardhat (fun _ => 0)
      (unsigned_permit Sharing) (VArray [sealed_item "0xc1f3" Uint64]).
Proof.
  apply unseal_depends_on. intros c. reflexivity.
Defined.

(** [unseal_Unsealed] on an array of a sealed boolean and a number. *)
Lemma unseal_Unsealed_witness :
  Unsealed plain_digest no_icap sample_unseal never_hardhat (fun _ => 0)
    signed_self_permit
    (VArray [sealed_item "yes" Bool; VNumber 7])
    (VArray [VBoolean true; VNumber 7]).
Proof.
  apply unseal_Unsealed. vm_compute. reflexivity.
Defined.

(** [unseal_long_address] on an address of forty digits. *)
Lemma unseal_long_address_witness :
  unseal plain_digest no_icap sample_unseal never_hardhat (fun _ => 0)
    signed_self_permit (sealed_item "owner" Uint160)
  = Normal (VString "0x52908400098527886e0f7030069857d2e4169ee7").
Proof.
  rewrite (unseal_long_address plain_digest no_icap sample_unseal never_hardhat
             (fun _ => 0) signed_self_permit (sealed_item "owner" Uint160)
             (mkSealedItem "owner" Uint160));
    [reflexivity | reflexivity | reflexivity
     | vm_compute; discriminate | vm_compute; lia].
Defined.

(** [export_depends_on] on two self permits that differ in their sealing
    pair, recipient signature and signed chain id. *)
Lemma export_depends_on_witness :
  export (set_recipientSignature "0x7777" signed_self_permit)
  = export signed_self_permit.
Proof.
  apply (export_depends_on (set_recipientSignature "0x7777" signed_self_permit)
           signed_self_permit); reflexivity.
Defined.

(** [sign_then_put] on an unsigned self permit in the initial store. *)
Lemma sign_then_put_witness :
  let p := unsigned_permit Self in
  let p' := set_signedChainId (Some "1") (set_issuerSignature "0xabcd" p) in
  (setPermit plain_digest plain_digest "alice" p initialStore
     ≫= setPermit plain_digest plain_digest "alice" p')
  = setPermit plain_digest plain_digest "alice" p' initialStore.
Proof.
  cbv zeta.
  assert (sign accept_all (Some "1") (Some (constant_signer "0xabcd"))
            (unsigned_permit Self)
          = (Normal tt,
             set_signedChainId (Some "1")
               (set_issuerSignature "0xabcd" (unsigned_permit Self)))) as H
    by reflexivity.
  destruct (sign_then_put plain_digest plain_digest accept_all initialStore
              "alice" _ _ _ _ H) as [H1 _].
  exact H1.
Defined.
